(** * JUS-DNCE: the audio-reactive preview (src/components/Step4Preview.tsx)

    A shallow embedding of the render loop ([renderFrame]) and of the
    capture pipeline ([handleDownload], its poll and [recorder.onstop]).

    Numbers.  A JavaScript number is modelled by an exact rational [Q]:
    no rounding is modelled.  The mean of the energy history, whose
    quotient is [0 / 0] (NaN) on an empty array, is an [option Q] with
    [None] for NaN; a comparison with NaN is false, as in JavaScript.
    The quotient by [state.duration] is used under a positive duration.
    The bins of a [Uint8Array] are [Byte.byte]; sums of bins and the
    sequence index are integers ([Z]), the remainder [%] is [Z.rem]. *)

From Stdlib Require Import List ZArith QArith Qminmax Lia Lqa Bool.
From Stdlib Require Import Strings.Byte.
From Stdlib Require Import Permutation.
From Stdlib Require Strings.String.
Import ListNotations.

Open Scope Q_scope.

(** ** Comparisons of JavaScript numbers *)

(** [x > y] *)
Definition Qgt_bool (x y : Q) : bool := negb (Qle_bool x y).

(** [x >= y] *)
Definition Qge_bool (x y : Q) : bool := Qle_bool y x.

(** [x > y] where [y] may be NaN: false on NaN. *)
Definition gt_nan (x : Q) (y : option Q) : bool :=
  match y with
  | Some t => Qgt_bool x t
  | None => false
  end.

(** ** The render loop: [renderFrame] *)

Module Render.

(** [export type PoseType = 'base' | 'var1' | 'var2' | 'var3';] *)
Inductive PoseType := base | var1 | var2 | var3.

(** The refs that [renderFrame] reads and writes. *)
Record refs := mkRefs {
  lastBeatTimeRef : Q;
  energyHistoryRef : list Q;
  sequenceIndexRef : Z;
  beatFlashRef : Q
}.

(** [useRef(0)], [useRef([])], [useRef(0)], [useRef(0)]. *)
Definition init : refs := mkRefs 0 [] 0 0.

(** What the callback closes over.  [ready] is
    [canvas && ctx && imagesReady && poseImages['base']],
    [analyser] is [analyserRef.current] being set,
    [intensity] is [state.intensity]. *)
Record env := mkEnv {
  ready : bool;
  analyser : bool;
  isPlaying : bool;
  isRecording : bool;
  intensity : Q
}.

(** What one call receives from outside: the timestamp, the bytes the
    analyser writes, and the draw of [Math.random()] of line 240. *)
Record input := mkInput {
  time : Q;
  dataArray : list byte;
  random : Q
}.

(** *** Audio analysis *)

(** [const startBin = 2; const endBin = 8;] *)
Definition startBin : nat := 2.
Definition endBin : nat := 8.

(** [const historySize = 60;] *)
Definition historySize : nat := 60.

(** [dataArray[i]] of a zero-filled [Uint8Array] into which the
    analyser wrote [dataArray]: a bin it did not write reads 0. *)
Definition getBin (dataArray : list byte) (i : nat) : Z :=
  Z.of_N (Byte.to_N (nth i dataArray x00)).

(** [for (let i = startBin; i < endBin; i++) bassSum += dataArray[i];] *)
Definition bassSum (dataArray : list byte) : Z :=
  fold_left (fun acc i => (acc + getBin dataArray i)%Z)
            (seq startBin (endBin - startBin)) 0%Z.

(** [bassLevel = (bassSum / (endBin - startBin)) / 255] *)
Definition bassLevelOf (dataArray : list byte) : Q :=
  (inject_Z (bassSum dataArray) / inject_Z (Z.of_nat (endBin - startBin)))
  / 255.

(** [energyHistoryRef.current.push(bassLevel)] *)
Definition push (h : list Q) (x : Q) : list Q := h ++ [x].

(** [energyHistoryRef.current.shift()] *)
Definition shift (h : list Q) : list Q := tl h.

(** Lines 209-212: the push, then the guarded shift. *)
Definition pushHistory (h : list Q) (bassLevel : Q) : list Q :=
  let h1 := push h bassLevel in
  if (historySize <? length h1)%nat then shift h1 else h1.

(** [h.reduce((a, b) => a + b, 0)] *)
Definition reduceSum (h : list Q) : Q := fold_left Qplus h 0.

(** [reduce(...) / h.length]; on an empty array that is [0 / 0], NaN. *)
Definition avgEnergyOf (h : list Q) : option Q :=
  match h with
  | [] => None
  | _ :: _ => Some (reduceSum h / inject_Z (Z.of_nat (length h)))
  end.

(** [const sensitivity = 1.5 - (state.intensity / 200);] *)
Definition sensitivityOf (intensity : Q) : Q := (3 # 2) - intensity / 200.

(** [const threshold = avgEnergy * sensitivity;] *)
Definition thresholdOf (avgEnergy intensity : Q) : Q :=
  avgEnergy * sensitivityOf intensity.

(** What the analysis block leaves behind. *)
Record analysis := mkAnalysis {
  bassLevel : Q;
  avgEnergy : option Q;
  threshold : option Q;
  isBeat : bool;
  history : list Q;
  lastBeatTime : Q
}.

(** Lines 192-227: the body of
    [if (analyserRef.current && (isPlaying || isRecording))]. *)
Definition analyse (intensity time : Q) (dataArray : list byte)
           (r : refs) : analysis :=
  let bassLevel := bassLevelOf dataArray in
  let history := pushHistory (energyHistoryRef r) bassLevel in
  let avgEnergy := avgEnergyOf history in
  let threshold := option_map (fun a => thresholdOf a intensity) avgEnergy in
  if gt_nan bassLevel threshold && Qgt_bool bassLevel (3 # 10) then
    if Qgt_bool (time - lastBeatTimeRef r) 200 then
      mkAnalysis bassLevel avgEnergy threshold true history time
    else
      mkAnalysis bassLevel avgEnergy threshold false history
                 (lastBeatTimeRef r)
  else
    mkAnalysis bassLevel avgEnergy threshold false history
               (lastBeatTimeRef r).

(** Lines 188-228: [isBeat = false], [bassLevel = 0], and the analysis
    when the analyser is there and the audio plays or is recorded. *)
Definition audioAnalysis (e : env) (i : input) (r : refs) : analysis :=
  if analyser e && (isPlaying e || isRecording e) then
    analyse (intensity e) (time i) (dataArray i) r
  else
    mkAnalysis 0 None None false (energyHistoryRef r) (lastBeatTimeRef r).

(** *** Sequencer *)

(** [const sequence: PoseType[] =
     ['base', 'var1', 'var2', 'var3', 'var2', 'var1'];] *)
Definition sequence : list PoseType := [base; var1; var2; var3; var2; var1].

(** [sequence.length] *)
Definition sequence_length : Z := Z.of_nat (length sequence).

(** [(sequenceIndexRef.current + 1) % sequence.length] *)
Definition advance (index : Z) : Z := Z.rem (index + 1) sequence_length.

(** [(sequenceIndexRef.current + 2) % sequence.length] *)
Definition stutter (index : Z) : Z := Z.rem (index + 2) sequence_length.

(** Lines 237-242: the index after an accepted beat, [random] being the
    value of [Math.random()]. *)
Definition onBeat (random : Q) (index : Z) : Z :=
  let index1 := advance index in
  if Qgt_bool (1 # 10) random then stutter index1 else index1.

(** [sequence[i]]: undefined ([None]) outside the array. *)
Definition lookup (l : list PoseType) (i : Z) : option PoseType :=
  if (i <? 0)%Z then None else nth_error l (Z.to_nat i).

(** *** Beat flash overlay *)

(** Lines 285-291: the flash after the frame and, when the overlay is
    drawn, the alpha of its [rgba(255, 255, 255, alpha)]. *)
Definition flashOverlay (beatFlash : Q) : Q * option Q :=
  if Qgt_bool beatFlash (1 # 100) then
    let beatFlash1 := beatFlash * (85 # 100) in
    (beatFlash1, Some (beatFlash1 * (15 # 100)))
  else (beatFlash, None).

(** *** The frame *)

(** What a frame shows: the beat, the bass level, the looked-up pose
    and the alpha of the overlay when one is drawn. *)
Record frame := mkFrame {
  f_isBeat : bool;
  f_bassLevel : Q;
  desiredPose : option PoseType;
  overlay : option Q
}.

(** [renderFrame]: the refs after the call and the frame drawn, [None]
    when the early return of line 165 is taken. *)
Definition renderFrame (e : env) (i : input) (r : refs)
  : refs * option frame :=
  if negb (ready e) then (r, None)
  else
    let a := audioAnalysis e i r in
    let beatFlash1 := if isBeat a then 1 else beatFlashRef r in
    let index1 :=
      if isBeat a then onBeat (random i) (sequenceIndexRef r)
      else sequenceIndexRef r in
    let fo := flashOverlay beatFlash1 in
    (mkRefs (lastBeatTime a) (history a) index1 (fst fo),
     Some (mkFrame (isBeat a) (bassLevel a) (lookup sequence index1)
                   (snd fo))).

(** The refs after a run of frames, and the frames drawn. *)
Fixpoint run (e : env) (ins : list input) (r : refs)
  : refs * list (option frame) :=
  match ins with
  | [] => (r, [])
  | i :: ins' =>
      let rf := renderFrame e i r in
      let rest := run e ins' (fst rf) in
      (fst rest, snd rf :: snd rest)
  end.

(** The history after pushing the samples [xs] one after the other. *)
Definition pushAll (h : list Q) (xs : list Q) : list Q :=
  fold_left pushHistory xs h.

(** The index after [n] accepted beats on which no stutter applies. *)
Fixpoint advances (n : nat) (index : Z) : Z :=
  match n with
  | O => index
  | S n' => advances n' (advance index)
  end.

End Render.

(** ** The capture pipeline: [handleDownload], its poll, [recorder.onstop] *)

Module Capture.

(** [AudioContext.state] *)
Inductive AudioContextState := running | suspended.

(** [MediaRecorder.state] *)
Inductive RecordingState := inactive | recording.

(** The fields of the audio element that the component touches. *)
Record HTMLAudioElement := mkAudio {
  currentTime : Q;
  loop : bool;
  paused : bool
}.

(** One call of [handleDownload] that reached [recorder.start()]: the
    recorder, the timer of [setInterval], the [duration] the poll closes
    over, the calls of [recorder.stop()], and whether [onstop] has run. *)
Record session := mkSession {
  recorder : RecordingState;
  interval : bool;
  duration : Q;
  stops : nat;
  finalized : bool
}.

(** The messages of [setError]. *)
Inductive message :=
| AudioMissing      (* "Audio file is missing." *)
| InitFailed        (* "Could not initialize audio engine." *)
| PlaybackBlocked   (* "Playback blocked. Please interact with the page." *)
| NotReady.         (* "Engine not ready for export." *)

(** The component: refs, React state, the suspended [handleDownload]
    ([awaiting], at [await audioCtxRef.current.resume()]), the sessions
    created so far, and counters of [audio.pause()] and of the
    downloads triggered by [a.click()].  [initAudio] sets [audioCtxRef]
    and [destRef] together with [audioRef]; [audioCtx] is the state of
    the context and is read only when [audioRef] is set. *)
Record component := mkComponent {
  audioRef : option HTMLAudioElement;
  audioCtx : AudioContextState;
  canvasRef : bool;
  isPlaying : bool;
  isRecording : bool;
  downloadProgress : Q;
  imagesReady : bool;
  error : option message;
  awaiting : bool;
  sessions : list session;
  pauses : nat;
  downloads : nat
}.

(** The props read by the handlers: whether [state.audioPreviewUrl] is
    set, and [state.duration]. *)
Record props := mkProps {
  audioPreviewUrl : bool;
  state_duration : Q
}.

(** The component as mounted, the canvas rendered. *)
Definition init (imagesReady : bool) : component :=
  mkComponent None suspended true false false 0 imagesReady None false [] 0 0.

Definition set_audio (a : option HTMLAudioElement) (c : component) :=
  mkComponent a (audioCtx c) (canvasRef c) (isPlaying c) (isRecording c)
    (downloadProgress c) (imagesReady c) (error c) (awaiting c)
    (sessions c) (pauses c) (downloads c).

Definition set_audioCtx (x : AudioContextState) (c : component) :=
  mkComponent (audioRef c) x (canvasRef c) (isPlaying c) (isRecording c)
    (downloadProgress c) (imagesReady c) (error c) (awaiting c)
    (sessions c) (pauses c) (downloads c).

Definition setIsPlaying (b : bool) (c : component) :=
  mkComponent (audioRef c) (audioCtx c) (canvasRef c) b (isRecording c)
    (downloadProgress c) (imagesReady c) (error c) (awaiting c)
    (sessions c) (pauses c) (downloads c).

Definition setIsRecording (b : bool) (c : component) :=
  mkComponent (audioRef c) (audioCtx c) (canvasRef c) (isPlaying c) b
    (downloadProgress c) (imagesReady c) (error c) (awaiting c)
    (sessions c) (pauses c) (downloads c).

Definition setDownloadProgress (x : Q) (c : component) :=
  mkComponent (audioRef c) (audioCtx c) (canvasRef c) (isPlaying c)
    (isRecording c) x (imagesReady c) (error c) (awaiting c)
    (sessions c) (pauses c) (downloads c).

Definition setError (m : message) (c : component) :=
  mkComponent (audioRef c) (audioCtx c) (canvasRef c) (isPlaying c)
    (isRecording c) (downloadProgress c) (imagesReady c) (Some m)
    (awaiting c) (sessions c) (pauses c) (downloads c).

Definition set_awaiting (b : bool) (c : component) :=
  mkComponent (audioRef c) (audioCtx c) (canvasRef c) (isPlaying c)
    (isRecording c) (downloadProgress c) (imagesReady c) (error c) b
    (sessions c) (pauses c) (downloads c).

Definition set_sessions (l : list session) (c : component) :=
  mkComponent (audioRef c) (audioCtx c) (canvasRef c) (isPlaying c)
    (isRecording c) (downloadProgress c) (imagesReady c) (error c)
    (awaiting c) l (pauses c) (downloads c).

Definition count_pause (c : component) :=
  mkComponent (audioRef c) (audioCtx c) (canvasRef c) (isPlaying c)
    (isRecording c) (downloadProgress c) (imagesReady c) (error c)
    (awaiting c) (sessions c) (S (pauses c)) (downloads c).

Definition count_download (c : component) :=
  mkComponent (audioRef c) (audioCtx c) (canvasRef c) (isPlaying c)
    (isRecording c) (downloadProgress c) (imagesReady c) (error c)
    (awaiting c) (sessions c) (pauses c) (S (downloads c)).

(** [audio.pause()] on the element, counted. *)
Definition pause (a : HTMLAudioElement) (c : component) : component :=
  count_pause (set_audio (Some (mkAudio (currentTime a) (loop a) true)) c).

(** The session [k] replaced by [x]. *)
Fixpoint replace (k : nat) (x : session) (l : list session) : list session :=
  match l, k with
  | [], _ => []
  | _ :: l', O => x :: l'
  | y :: l', S k' => y :: replace k' x l'
  end.

Section Handlers.

Variable p : props.

(** [initAudio]; [newCtx] is the state of the context that
    [new AudioContextClass()] gives, [None] when building the graph
    throws.  The new element has [loop = true]. *)
Definition initAudio (newCtx : option AudioContextState) (c : component)
  : component * bool :=
  match audioRef c, audioCtx c with
  | Some _, running => (c, true)
  | _, _ =>
      if negb (audioPreviewUrl p) then (setError AudioMissing c, false)
      else
        match newCtx with
        | None => (setError InitFailed c, false)
        | Some x =>
            (set_audioCtx x (set_audio (Some (mkAudio 0 true true)) c),
             true)
        end
  end.

(** Lines 377-440 up to the timer: the recorder is built and started,
    the audio plays, the poll is armed with [state.duration]. *)
Definition startRecording (c : component) : component :=
  let c1 :=
    set_sessions
      (sessions c ++ [mkSession recording true (state_duration p) 0 false])
      c in
  match audioRef c1 with
  | Some a => set_audio (Some (mkAudio (currentTime a) (loop a) false)) c1
  | None => c1
  end.

(** Lines 364-373: the flags are set, a playing preview is paused,
    the position is reset and looping is switched off. *)
Definition prepare (a : HTMLAudioElement) (c : component) : component :=
  let c2 := setDownloadProgress 0 (setIsRecording true c) in
  let c3 :=
    if isPlaying c2 then setIsPlaying false (pause a c2) else c2 in
  match audioRef c3 with
  | Some a3 => set_audio (Some (mkAudio 0 false (paused a3))) c3
  | None => c3
  end.

(** [handleDownload] up to its [await]; when the context is running
    there is no [await] and the recording starts in the same call. *)
Definition handleDownload (newCtx : option AudioContextState)
           (c : component) : component :=
  let '(c1, ok) :=
    match audioRef c with
    | None => initAudio newCtx c
    | Some _ => (c, true)
    end in
  if negb ok then c1
  else
    match audioRef c1 with
    | None => setError NotReady c1
    | Some a =>
        if negb (canvasRef c1) then setError NotReady c1
        else
          let c4 := prepare a c1 in
          match audioCtx c4 with
          | suspended => set_awaiting true c4
          | running => startRecording c4
          end
    end.

(** The promise of [resume()] resolves: the suspended call goes on. *)
Definition resumed (c : component) : component :=
  if awaiting c then
    startRecording (set_awaiting false (set_audioCtx running c))
  else c.

(** The "Download Video" button:
    [disabled={isRecording || !imagesReady}]. *)
Definition clickDownload (newCtx : option AudioContextState)
           (c : component) : component :=
  if isRecording c || negb (imagesReady c) then c
  else handleDownload newCtx c.

(** [togglePlay], its [await]s taken as one step; the button is only
    rendered under [!isRecording].  [playOk] tells whether the promise
    of [play()] is fulfilled. *)
Definition togglePlay (newCtx : option AudioContextState) (playOk : bool)
           (c : component) : component :=
  if isRecording c then c
  else
    let '(c1, ok) :=
      match audioRef c with
      | None => initAudio newCtx c
      | Some _ => (c, true)
      end in
    if negb ok then c1
    else
      match audioRef c1 with
      | None => c1
      | Some a =>
          let c2 := set_audioCtx running c1 in
          if isPlaying c2 then setIsPlaying false (pause a c2)
          else if playOk then
            setIsPlaying true
              (set_audio (Some (mkAudio (currentTime a) (loop a) false)) c2)
          else setError PlaybackBlocked c2
      end.

End Handlers.

(** The playback clock: while the audio plays, its position moves. *)
Definition playback (t : Q) (c : component) : component :=
  match audioRef c with
  | Some a =>
      if paused a then c else set_audio (Some (mkAudio t (loop a) false)) c
  | None => c
  end.

(** [Math.min(99, p)] with [p = (currentTime / duration) * 100]. *)
Definition progressOf (currentTime duration : Q) : Q :=
  Qmin 99 (currentTime / duration * 100).

(** Lines 428-440: the callback of the timer of session [k]; a cleared
    timer does not fire. *)
Definition poll (k : nat) (c : component) : component :=
  match nth_error (sessions c) k with
  | Some s =>
      if interval s then
        match audioRef c with
        | None => c
        | Some a =>
            let c1 :=
              setDownloadProgress (progressOf (currentTime a) (duration s)) c in
            if Qge_bool (currentTime a) (duration s) then
              let c2 :=
                set_sessions
                  (replace k (mkSession inactive false (duration s)
                                        (S (stops s)) (finalized s))
                           (sessions c1))
                  c1 in
              setDownloadProgress 100 (pause a c2)
            else c1
        end
      else c
  | None => c
  end.

(** [recorder.onstop] of session [k]: dispatched once, after
    [recorder.stop()]. *)
Definition onstop (k : nat) (c : component) : component :=
  match nth_error (sessions c) k with
  | Some s =>
      match recorder s, stops s, finalized s with
      | inactive, S _, false =>
          let c1 :=
            setIsRecording false
              (count_download
                 (set_sessions
                    (replace k (mkSession inactive (interval s) (duration s)
                                          (stops s) true)
                             (sessions c))
                    c)) in
          match audioRef c1 with
          | Some a => set_audio (Some (mkAudio 0 true (paused a))) c1
          | None => c1
          end
      | _, _, _ => c
      end
  | None => c
  end.

(** What can happen to the mounted component. *)
Inductive event :=
| ClickDownload (newCtx : option AudioContextState)
| ClickPlay (newCtx : option AudioContextState) (playOk : bool)
| Resumed
| Playback (t : Q)
| Poll (k : nat)
| OnStop (k : nat).

Definition step (p : props) (e : event) (c : component) : component :=
  match e with
  | ClickDownload newCtx => clickDownload p newCtx c
  | ClickPlay newCtx playOk => togglePlay p newCtx playOk c
  | Resumed => resumed p c
  | Playback t => playback t c
  | Poll k => poll k c
  | OnStop k => onstop k c
  end.

Definition exec (p : props) (es : list event) (c : component) : component :=
  fold_left (fun c e => step p e c) es c.

(** The states the component can be in. *)
Inductive reachable (p : props) : component -> Prop :=
| reach_init : forall b, reachable p (init b)
| reach_step : forall e c, reachable p c -> reachable p (step p e c).



(** The capture sessions in being: the call suspended before its
    recorder exists, and the sessions whose [onstop] has not run. *)
Definition active (c : component) : nat :=
  ((if awaiting c then 1 else 0)
   + length (filter (fun s => negb (finalized s)) (sessions c)))%nat.



(** Session [k] of the component is [s], and the audio plays. *)
Definition armed (k : nat) (s : session) (c : component) : Prop :=
  nth_error (sessions c) k = Some s
  /\ exists a, audioRef c = Some a /\ paused a = false.

(** The poll of session [k] reading the playback position [t]. *)
Definition pollAt (k : nat) (c : component) (t : Q) : component :=
  poll k (playback t c).

Definition polls (k : nat) (ts : list Q) (c : component) : component :=
  fold_left (pollAt k) ts c.

End Capture.

(** ** Inputs on which the model is run *)

Module Samples.

(** A frame at [time] on which every bin reads 0. *)
Definition silence (time : Q) : Render.input :=
  Render.mkInput time (repeat x00 1024) (1 # 2).

(** A frame at [time] on which every bin reads 255. *)
Definition kick (time : Q) : Render.input :=
  Render.mkInput time (repeat xff 1024) (1 # 2).

(** The preview playing, images loaded, at a reactivity setting. *)
Definition playing (intensity : Q) : Render.env :=
  Render.mkEnv true true true false intensity.

(** The refs after three silent frames of a playing preview. *)
Definition warm : Render.refs :=
  fst (Render.run (playing 50) [silence 0; silence 16; silence 32]
                  Render.init).

(** A silent frame, a kick at one second, then [n] silent frames,
    16 ms apart. *)
Definition fading (n : nat) : list Render.input :=
  silence 0 :: kick 1000
  :: map (fun k => silence (1000 + 16 * inject_Z (Z.of_nat k))) (seq 1 n).

(** The refs 29 frames after a kick. *)
Definition faded : Render.refs :=
  fst (Render.run (playing 50) (fading 28) Render.init).

(** An audio file is there and the target duration is 10 s. *)
Definition tenSeconds : Capture.props := Capture.mkProps true 10.

(** The component after a click on "Download Video", images loaded and
    the audio context running. *)
Definition capturing : Capture.component :=
  Capture.step tenSeconds (Capture.ClickDownload (Some Capture.running))
               (Capture.init true).

(** The session that the click starts. *)
Definition started : Capture.session :=
  Capture.mkSession Capture.recording true 10 0 false.

End Samples.

(** ** Runs of the render loop *)

Module Trace.

(** The timestamps of the frames of a run on which a beat is accepted. *)
Fixpoint beatTimes (e : Render.env) (ins : list Render.input)
         (r : Render.refs) : list Q :=
  match ins with
  | [] => []
  | i :: ins' =>
      let rf := Render.renderFrame e i r in
      let rest := beatTimes e ins' (fst rf) in
      match snd rf with
      | Some f => if Render.f_isBeat f then Render.time i :: rest else rest
      | None => rest
      end
  end.

(** Each timestamp is more than 200 ms after the one before it, the
    first one more than 200 ms after [last]. *)
Fixpoint spaced (last : Q) (ts : list Q) : Prop :=
  match ts with
  | [] => True
  | t :: ts' => 200 < t - last /\ spaced t ts'
  end.

(** The flash after the overlay step of a frame. *)
Definition decay (beatFlash : Q) : Q := fst (Render.flashOverlay beatFlash).

(** The flash [n] overlay steps after a beat has set it to 1. *)
Definition decayed (n : nat) : Q := Nat.iter n decay 1.


End Trace.

(** ** The image of a frame: lines 254-282 of [renderFrame] *)

Module Compositor.

(** What the drawing of the pose image receives: the size of the
    surface, the size of the image, the bass level, the value of
    [Math.sin(time / 500)], the sequence index and the two draws of
    [Math.random()] of the shake. *)
Record scene := mkScene {
  width : Q;
  height : Q;
  img_width : Q;
  img_height : Q;
  bassLevel : Q;
  sine : Q;
  sequenceIndex : Z;
  randomX : Q;
  randomY : Q
}.

(** [const thump = bassLevel * 0.05;] *)
Definition thump (s : scene) : Q := bassLevel s * (5 # 100).

(** [Math.min(width / img.width, height / img.height) * (1 + thump)] *)
Definition scale (s : scene) : Q :=
  Qmin (width s / img_width s) (height s / img_height s) * (1 + thump s).

Definition drawW (s : scene) : Q := img_width s * scale s.
Definition drawH (s : scene) : Q := img_height s * scale s.

(** [if (bassLevel > 0.6) shakeX = (Math.random() - 0.5) * 10;] *)
Definition shakeX (s : scene) : Q :=
  if Qgt_bool (bassLevel s) (6 # 10) then (randomX s - (1 # 2)) * 10 else 0.
Definition shakeY (s : scene) : Q :=
  if Qgt_bool (bassLevel s) (6 # 10) then (randomY s - (1 # 2)) * 10 else 0.

(** [const drawX = (width - drawW) / 2 + shakeX;] *)
Definition drawX (s : scene) : Q := (width s - drawW s) / 2 + shakeX s.
Definition drawY (s : scene) : Q := (height s - drawH s) / 2 + shakeY s.

(** [Math.sin(time / 500) * 0.01
     + (bassLevel * 0.02 * (sequenceIndexRef.current % 2 === 0 ? 1 : -1))] *)
Definition rotation (s : scene) : Q :=
  sine s * (1 # 100)
  + bassLevel s * (2 # 100)
    * (if (Z.rem (sequenceIndex s) 2 =? 0)%Z then 1 else -1).

(** The calls on the canvas context between [save] and [restore]:
    [translate(width/2, height/2)], [rotate(rotation)] and
    [drawImage(img, -drawW/2, -drawH/2, drawW, drawH)]. *)
Record drawing := mkDrawing {
  translateX : Q;
  translateY : Q;
  rotate : Q;
  dx : Q;
  dy : Q;
  dw : Q;
  dh : Q
}.

Definition drawPose (s : scene) : drawing :=
  mkDrawing (width s / 2) (height s / 2) (rotation s)
            (- drawW s / 2) (- drawH s / 2) (drawW s) (drawH s).

End Compositor.

(** ** Loading the pose images: the first effect of the component *)

Module Assets.
Import Stdlib.Strings.String.

(** [export interface GeneratedFrame] *)
Record GeneratedFrame := mkFrame {
  url : string;
  pose : Render.PoseType;
  promptUsed : option string
}.

(** An [HTMLImageElement], told by its [src]. *)
Definition image : Type := string.

(** [Record<string, HTMLImageElement>] over the pose names: the image
    under a pose, [None] when the key is not set. *)
Definition poses : Type := Render.PoseType -> option image.

Definition noPoses : poses := fun _ => None.

Definition pose_eqb (p q : Render.PoseType) : bool :=
  match p, q with
  | Render.base, Render.base | Render.var1, Render.var1
  | Render.var2, Render.var2 | Render.var3, Render.var3 => true
  | _, _ => false
  end.

(** [m[p] = img] *)
Definition assign (m : poses) (p : Render.PoseType) (img : image) : poses :=
  fun q => if pose_eqb q p then Some img else m q.

(** The messages of [setError] in the effect. *)
Inductive message :=
| NoImages      (* "No images to render." *)
| BaseFailed.   (* "Failed to load base image." *)

(** The React state the effect writes. *)
Record view := mkView {
  poseImages : poses;
  imagesReady : bool;
  error : option message
}.

(** The variables of one run of the effect. *)
Record loading := mkLoading {
  framesToLoad : list GeneratedFrame;
  newPoseMap : poses;
  loadedCount : nat;
  isMounted : bool
}.

(** Lines 47-51; an empty string is falsy. *)
Definition framesOf (generatedFrames : list GeneratedFrame)
           (imagePreviewUrl : option string) : list GeneratedFrame :=
  if (0 <? List.length generatedFrames)%nat then generatedFrames
  else
    match imagePreviewUrl with
    | Some EmptyString | None => []
    | Some u => [mkFrame u Render.base None]
    end.

(** Lines 53-61: the effect up to the loop over the frames. *)
Definition start (generatedFrames : list GeneratedFrame)
           (imagePreviewUrl : option string) (v : view)
  : view * option loading :=
  let fs := framesOf generatedFrames imagePreviewUrl in
  if (List.length fs =? 0)%nat then
    (mkView (poseImages v) (imagesReady v) (Some NoImages), None)
  else
    (mkView (poseImages v) false (error v),
     Some (mkLoading fs noPoses 0 true)).

(** [['var1', 'var2', 'var3'].forEach(p =>
       { if (!newPoseMap[p]) newPoseMap[p] = baseImg; })] *)
Definition fill (m : poses) (baseImg : image) : poses :=
  fold_left
    (fun (m : poses) (p : Render.PoseType) =>
       match m p with Some _ => m | None => assign m p baseImg end)
    [Render.var1; Render.var2; Render.var3] m.

(** [checkDone] *)
Definition checkDone (l : loading) (v : view) : loading * view :=
  if (loadedCount l =? List.length (framesToLoad l))%nat then
    if isMounted l then
      match newPoseMap l Render.base with
      | Some baseImg =>
          let m := fill (newPoseMap l) baseImg in
          (mkLoading (framesToLoad l) m (loadedCount l) (isMounted l),
           mkView m true (error v))
      | None => (l, mkView (poseImages v) (imagesReady v) (Some BaseFailed))
      end
    else (l, v)
  else (l, v).

(** [img.onload] of the image of [frame] *)
Definition onload (frame : GeneratedFrame) (l : loading) (v : view)
  : loading * view :=
  checkDone
    (mkLoading (framesToLoad l)
               (assign (newPoseMap l) (pose frame) (url frame))
               (S (loadedCount l)) (isMounted l))
    v.

(** [img.onerror] *)
Definition onerror (l : loading) (v : view) : loading * view :=
  checkDone
    (mkLoading (framesToLoad l) (newPoseMap l) (S (loadedCount l))
               (isMounted l))
    v.

(** The cleanup of the effect: [isMounted = false]. *)
Definition cleanup (l : loading) : loading :=
  mkLoading (framesToLoad l) (newPoseMap l) (loadedCount l) false.

(** One image settles: it loads ([true]) or fails. *)
Definition settle (s : loading * view) (o : GeneratedFrame * bool)
  : loading * view :=
  if snd o then onload (fst o) (fst s) (snd s) else onerror (fst s) (snd s).

(** The images settle in the order of [outcomes]. *)
Definition settleAll (outcomes : list (GeneratedFrame * bool))
           (s : loading * view) : loading * view :=
  fold_left settle outcomes s.

(** [poseImages[desiredPose] || poseImages['base']] of [renderFrame];
    [desiredPose] is [None] when the lookup in the cycle is undefined. *)
Definition resolve (m : poses) (desiredPose : option Render.PoseType)
  : option image :=
  match desiredPose with
  | Some p => match m p with Some img => Some img | None => m Render.base end
  | None => m Render.base
  end.

(** The map after the loads among [outcomes], without the fill. *)
Definition collect (m : poses) (outcomes : list (GeneratedFrame * bool))
  : poses :=
  fold_left
    (fun (m : poses) (o : GeneratedFrame * bool) =>
       if snd o then assign m (pose (fst o)) (url (fst o)) else m)
    outcomes m.

(** A frame of pose [p] loads among [outcomes]. *)
Definition loads (p : Render.PoseType)
           (outcomes : list (GeneratedFrame * bool)) : Prop :=
  exists frame, In (frame, true) outcomes /\ pose frame = p.

End Assets.

(** ** The frame service: services/gemini *)

Module Gemini.
Import Stdlib.Strings.String.
Local Open Scope string_scope.

(** [s] without its prefix [pre], [None] when [s] does not start with
    [pre]: the match of a literal at [^]. *)
Fixpoint dropPrefix (pre s : string) : option string :=
  match pre with
  | EmptyString => Some s
  | String c pre' =>
      match s with
      | String d s' => if Ascii.eqb c d then dropPrefix pre' s' else None
      | EmptyString => None
      end
  end.

(** The alternatives of [(png|jpeg|jpg|webp)], in their order. *)
Definition imageTypes : list string := ["png"; "jpeg"; "jpg"; "webp"]%list.

(** The first alternative that matches together with [;base64,]. *)
Fixpoint firstMatch (types : list string) (rest : string) : option string :=
  match types with
  | [] => None
  | t :: types' =>
      match dropPrefix (t ++ ";base64,") rest with
      | Some r => Some r
      | None => firstMatch types' rest
      end
  end%list.

(** [base64.replace(/^data:image\/(png|jpeg|jpg|webp);base64,/, '')] *)
Definition stripBase64Prefix (base64 : string) : string :=
  match dropPrefix "data:image/" base64 with
  | Some rest =>
      match firstMatch imageTypes rest with
      | Some r => r
      | None => base64
      end
  | None => base64
  end.

(** An entry of the plan: [{ pose, prompt }]. *)
Record move := mkMove {
  move_pose : Render.PoseType;
  move_prompt : string
}.

(** The prompts used when the planning call fails. *)
Definition fallbackMoves : list move :=
  [mkMove Render.var1
     "Slightly rotate the subject to the left. Maintain consistent character details and background.";
   mkMove Render.var2
     "Slight zoom in on the subject with increased intensity. Maintain consistent character details.";
   mkMove Render.var3
     "Slightly rotate the subject to the right. Maintain consistent character details."]%list.

(** [planAnimationSequence]; [response] is [JSON.parse(response.text)],
    a list of moves as the response schema asks, [None] when the call
    throws or gives no text. *)
Definition planAnimationSequence (response : option (list move)) : list move :=
  match response with
  | Some plannedMoves => plannedMoves
  | None => fallbackMoves
  end.

(** The frame of move number [k]; [generated k] is the [inlineData.data]
    of the first part of the answer that has one, [None] when the call
    throws or no part has. *)
Definition frameOf (generated : nat -> option string) (k : nat) (m : move)
  : option Assets.GeneratedFrame :=
  match generated k with
  | Some data =>
      Some (Assets.mkFrame ("data:image/png;base64," ++ data) (move_pose m)
                           (Some (move_prompt m)))
  | None => None
  end.

(** [results.forEach(res => { if (res) frames.push(res); })] *)
Fixpoint pushResults (results : list (option Assets.GeneratedFrame))
  : list Assets.GeneratedFrame :=
  match results with
  | [] => []
  | Some frame :: results' => frame :: pushResults results'
  | None :: results' => pushResults results'
  end%list.

(** [generateDanceFrames]; [apiKey] tells whether [API_KEY] is set. *)
Definition generateDanceFrames (apiKey : bool) (originalImageBase64 : string)
           (response : option (list move)) (generated : nat -> option string)
  : list Assets.GeneratedFrame :=
  let frames :=
    [Assets.mkFrame originalImageBase64 Render.base (Some "Original Image")]%list
  in
  if negb apiKey then
    (frames ++ map (fun p => Assets.mkFrame originalImageBase64 p None)
                   [Render.var1; Render.var2; Render.var3])%list
  else
    let plannedMoves := planAnimationSequence response in
    let results :=
      map (fun km => frameOf generated (fst km) (snd km))
          (combine (seq 0 (List.length plannedMoves)) plannedMoves) in
    (frames ++ pushResults results)%list.

(** An uploaded picture, as [readAsDataURL] gives it. *)
Definition picture : string := "data:image/png;base64,iVBORw0KGgo=".



End Gemini.

(** ** The wizard around the preview: App *)

Module App.
Import Stdlib.Strings.String.

(** [export enum AppStep], by its numbers. *)
Definition UPLOAD_IMAGE : Z := 1.
Definition UPLOAD_AUDIO : Z := 2.
Definition CONFIGURE : Z := 3.
Definition PREVIEW : Z := 4.

(** A [File], told by its name. *)
Definition File : Type := string.

(** [export interface AppState] *)
Record AppState := mkAppState {
  step : Z;
  imageFile : option File;
  imagePreviewUrl : option string;
  audioFile : option File;
  audioPreviewUrl : option string;
  selectedStyleId : string;
  motionPrompt : string;
  intensity : Z;
  duration : Z;
  generatedFrames : list Assets.GeneratedFrame;
  isGenerating : bool;
  credits : Z
}.

(** [DEFAULT_STATE] *)
Definition DEFAULT_STATE : AppState :=
  mkAppState UPLOAD_IMAGE None None None None "neon-cyber"
             "Head bobbing to the beat, rhythmic motion" 50 10 [] false 100.

(** The component: its state and the calls of [generateDanceFrames]
    that have not returned, each with the picture it was given. *)
Record app := mkApp {
  appState : AppState;
  generating : list string
}.

Definition mounted : app := mkApp DEFAULT_STATE [].

Definition set_step (x : Z) (s : AppState) : AppState :=
  mkAppState x (imageFile s) (imagePreviewUrl s) (audioFile s)
    (audioPreviewUrl s) (selectedStyleId s) (motionPrompt s) (intensity s)
    (duration s) (generatedFrames s) (isGenerating s) (credits s).

Definition set_frames (l : list Assets.GeneratedFrame) (b : bool)
           (s : AppState) : AppState :=
  mkAppState (step s) (imageFile s) (imagePreviewUrl s) (audioFile s)
    (audioPreviewUrl s) (selectedStyleId s) (motionPrompt s) (intensity s)
    (duration s) l b (credits s).

(** The value of a JavaScript condition on a string that may be null. *)
Definition truthy (x : option string) : bool :=
  match x with
  | Some EmptyString | None => false
  | Some _ => true
  end.

(** [!!file] *)
Definition present (x : option File) : bool :=
  match x with Some _ => true | None => false end.

(** [handleImageUpload] after its [await]: [previewUrl] is what
    [fileToGenericBase64] resolved to. *)
Definition handleImageUpload (file : File) (previewUrl : string)
           (s : AppState) : AppState :=
  mkAppState (step s) (Some file) (Some previewUrl) (audioFile s)
    (audioPreviewUrl s) (selectedStyleId s) (motionPrompt s) (intensity s)
    (duration s) [] (isGenerating s) (credits s).

(** [handleAudioUpload]; [objectUrl] is what [URL.createObjectURL(file)]
    returns, [None] when it throws. *)
Definition handleAudioUpload (file : option File) (objectUrl : option string)
           (s : AppState) : AppState :=
  match objectUrl with
  | Some previewUrl =>
      mkAppState (step s) (imageFile s) (imagePreviewUrl s) file
        (Some previewUrl) (selectedStyleId s) (motionPrompt s) (intensity s)
        (duration s) (generatedFrames s) (isGenerating s) (credits s)
  | None => s
  end.

(** The calls [onUpdate(key, value)] of the configuration step. *)
Inductive config :=
| SelectedStyleId (value : string)
| MotionPrompt (value : string)
| Intensity (value : Z)
| Duration (value : Z).

(** [updateConfig]: [{ ...prev, [key]: value }] *)
Definition updateConfig (c : config) (s : AppState) : AppState :=
  match c with
  | SelectedStyleId x =>
      mkAppState (step s) (imageFile s) (imagePreviewUrl s) (audioFile s)
        (audioPreviewUrl s) x (motionPrompt s) (intensity s) (duration s)
        (generatedFrames s) (isGenerating s) (credits s)
  | MotionPrompt x =>
      mkAppState (step s) (imageFile s) (imagePreviewUrl s) (audioFile s)
        (audioPreviewUrl s) (selectedStyleId s) x (intensity s) (duration s)
        (generatedFrames s) (isGenerating s) (credits s)
  | Intensity x =>
      mkAppState (step s) (imageFile s) (imagePreviewUrl s) (audioFile s)
        (audioPreviewUrl s) (selectedStyleId s) (motionPrompt s) x
        (duration s) (generatedFrames s) (isGenerating s) (credits s)
  | Duration x =>
      mkAppState (step s) (imageFile s) (imagePreviewUrl s) (audioFile s)
        (audioPreviewUrl s) (selectedStyleId s) (motionPrompt s) (intensity s)
        x (generatedFrames s) (isGenerating s) (credits s)
  end.

(** [handleGenerate] up to its [await]: the guard, the switch to the
    preview, and the call of [generateDanceFrames] with the picture. *)
Definition handleGenerate (a : app) : app :=
  let s := appState a in
  if negb (truthy (imagePreviewUrl s)) || negb (present (audioFile s)) then a
  else
    match imagePreviewUrl s with
    | Some picture =>
        mkApp (set_step PREVIEW (set_frames (generatedFrames s) true s))
              (generating a ++ [picture])
    | None => a
    end.

(** The list without its element number [k]. *)
Fixpoint remove_nth {A : Type} (k : nat) (l : list A) : list A :=
  match l, k with
  | [], _ => []
  | _ :: l', O => l'
  | x :: l', S k' => x :: remove_nth k' l'
  end.

(** [handleGenerate] after its [await]: call number [k] returns. *)
Definition generated (k : nat) (apiKey : bool)
           (response : option (list Gemini.move))
           (drawn : nat -> option string) (a : app) : app :=
  match nth_error (generating a) k with
  | Some picture =>
      mkApp (set_frames
               (Gemini.generateDanceFrames apiKey picture response drawn)
               false (appState a))
            (remove_nth k (generating a))
  | None => a
  end.

(** [canProceed] *)
Definition canProceed (s : AppState) : bool :=
  if (step s =? UPLOAD_IMAGE)%Z then present (imageFile s)
  else if (step s =? UPLOAD_AUDIO)%Z then present (audioFile s)
  else if (step s =? CONFIGURE)%Z then true
  else false.

(** [nextStep] *)
Definition nextStep (a : app) : app :=
  if (step (appState a) =? CONFIGURE)%Z then handleGenerate a
  else mkApp (set_step (step (appState a) + 1) (appState a)) (generating a).

(** [goToStep] *)
Definition goToStep (target : Z) (a : app) : app :=
  let s := appState a in
  if (target >? UPLOAD_IMAGE)%Z && negb (present (imageFile s)) then a
  else if (target >? UPLOAD_AUDIO)%Z && negb (present (audioFile s)) then a
  else mkApp (set_step target s) (generating a).

(** What the user and the environment do. *)
Inductive event :=
| ImageRead (file : File) (previewUrl : string)
| AudioUpload (file : option File) (objectUrl : option string)
| Configure (c : config)
| Continue
| Back
| Header (target : Z)
| Regenerate
| Generated (k : nat) (apiKey : bool) (response : option (list Gemini.move))
            (drawn : nat -> option string).

(** The handler behind each event, under the condition on which its
    control is rendered and enabled. *)
Definition handle (e : event) (a : app) : app :=
  let s := appState a in
  match e with
  | ImageRead file previewUrl =>
      mkApp (handleImageUpload file previewUrl s) (generating a)
  | AudioUpload file objectUrl =>
      if (step s =? UPLOAD_AUDIO)%Z then
        mkApp (handleAudioUpload file objectUrl s) (generating a)
      else a
  | Configure c =>
      if (step s =? CONFIGURE)%Z then mkApp (updateConfig c s) (generating a)
      else a
  | Continue =>
      if negb (step s =? PREVIEW)%Z && canProceed s then nextStep a else a
  | Back =>
      if negb (step s =? PREVIEW)%Z && negb (step s =? 1)%Z
      then goToStep (step s - 1) a else a
  | Header target =>
      if (1 <=? target)%Z && (target <=? step s)%Z then goToStep target a
      else a
  | Regenerate =>
      if (step s =? PREVIEW)%Z && negb (isGenerating s)
      then handleGenerate a else a
  | Generated k apiKey response drawn => generated k apiKey response drawn a
  end.

(** What the environment can deliver: a data URL and an object URL are
    not empty, [createObjectURL] throws on [null], and the two sliders
    give integers within their [min] and [max]. *)
Definition possible (e : event) : Prop :=
  match e with
  | ImageRead _ previewUrl => previewUrl <> EmptyString
  | AudioUpload (Some _) (Some objectUrl) => objectUrl <> EmptyString
  | AudioUpload None None => True
  | AudioUpload _ _ => False
  | Configure (Intensity x) => (0 <= x <= 100)%Z
  | Configure (Duration x) => (5 <= x <= 30)%Z
  | _ => True
  end.

(** The states of the component. *)
Inductive reachable : app -> Prop :=
| reach_mounted : reachable mounted
| reach_handle : forall e a,
    reachable a -> possible e -> reachable (handle e a).

(** What holds between the fields in every state. *)
Definition consistent (a : app) : Prop :=
  let s := appState a in
  (1 <= step s <= 4)%Z
  /\ ((2 <= step s)%Z -> present (imageFile s) = true)
  /\ ((3 <= step s)%Z -> present (audioFile s) = true)
  /\ present (imageFile s) = truthy (imagePreviewUrl s)
  /\ present (audioFile s) = truthy (audioPreviewUrl s)
  /\ (0 <= intensity s <= 100)%Z
  /\ (5 <= duration s <= 30)%Z.

(** The generated frames, when there are any, start with a frame of
    pose base. *)
Definition anchored (s : AppState) : Prop :=
  generatedFrames s = []
  \/ exists picture rest,
      generatedFrames s
      = Assets.mkFrame picture Render.base (Some "Original Image"%string)
        :: rest.

(** The props that the preview reads from the state. *)
Definition captureProps (s : AppState) : Capture.props :=
  Capture.mkProps (truthy (audioPreviewUrl s)) (inject_Z (duration s)).

(** A picture and a track uploaded, the wizard at its third step. *)
Definition uploads : list event :=
  [ImageRead "me.png"%string Gemini.picture; Continue;
   AudioUpload (Some "beat.mp3"%string) (Some "blob:beat"%string); Continue].

Definition atConfigure : app :=
  fold_left (fun a e => handle e a) uploads mounted.

(** The same after "Generate Loop". *)
Definition atPreview : app := handle Continue atConfigure.

End App.

(** ** Sessions of the capture pipeline *)

Module Sessions.

(** The three stages of a session: recording with its timer armed and
    [stop] never called; stopped once with the timer cleared, [onstop]
    to come; and finalized. *)
Definition staged (s : Capture.session) : Prop :=
  match Capture.recorder s, Capture.interval s, Capture.stops s,
        Capture.finalized s with
  | Capture.recording, true, O, false => True
  | Capture.inactive, false, 1%nat, _ => True
  | _, _, _, _ => False
  end.

(** The sessions whose [onstop] has run. *)
Definition finished (l : list Capture.session) : nat :=
  length (filter Capture.finalized l).

(** Looping is off exactly while a capture is under way. *)
Definition looping (c : Capture.component) : Prop :=
  forall a, Capture.audioRef c = Some a ->
            Capture.loop a = negb (Capture.isRecording c).

(** What a handler leaves of the sessions and of the download counter. *)
Definition kept (c c' : Capture.component) : Prop :=
  Capture.sessions c' = Capture.sessions c
  /\ Capture.downloads c' = Capture.downloads c.

(** Every session is at one of its stages, and the downloads are as many
    as the finalized sessions. *)
Definition accounted (c : Capture.component) : Prop :=
  Forall staged (Capture.sessions c)
  /\ Capture.downloads c = finished (Capture.sessions c).

End Sessions.

(** ** A whole capture of the sample component *)

Module Takes.

(** After the click: the playback reaches 10 s, the poll fires, the stop
    handler runs. *)
Definition taken : Capture.component :=
  Capture.step Samples.tenSeconds (Capture.OnStop 0)
    (Capture.step Samples.tenSeconds (Capture.Poll 0)
       (Capture.step Samples.tenSeconds (Capture.Playback 10)
          Samples.capturing)).

End Takes.

(** * Facts *)

(** ** Comparisons *)

Lemma Qgt_bool_iff (x y : Q) : Qgt_bool x y = true <-> y < x.
Proof.
  unfold Qgt_bool. rewrite negb_true_iff.
  split; intro H.
  - apply Qnot_le_lt. intro Hle. apply Qle_bool_iff in Hle. congruence.
  - destruct (Qle_bool x y) eqn:E; [|reflexivity].
    apply Qle_bool_iff in E. exfalso. apply (Qlt_not_le _ _ H E).
Qed.

Lemma Qgt_bool_false_iff (x y : Q) : Qgt_bool x y = false <-> x <= y.
Proof.
  unfold Qgt_bool. rewrite negb_false_iff. apply Qle_bool_iff.
Qed.

Lemma Qge_bool_iff (x y : Q) : Qge_bool x y = true <-> y <= x.
Proof. unfold Qge_bool. apply Qle_bool_iff. Qed.

Lemma Qge_bool_false_iff (x y : Q) : Qge_bool x y = false <-> x < y.
Proof.
  unfold Qge_bool. split; intro H.
  - apply Qnot_le_lt. intro Hle. apply Qle_bool_iff in Hle. congruence.
  - destruct (Qle_bool y x) eqn:E; [|reflexivity].
    apply Qle_bool_iff in E. exfalso. apply (Qlt_not_le _ _ H E).
Qed.

(** ** The energy history *)

Section History.
Import Render.

Lemma pushHistory_below (h : list Q) (x : Q) :
  (length h < historySize)%nat -> pushHistory h x = h ++ [x].
Proof.
  intro H. unfold pushHistory, push.
  destruct (Nat.ltb_spec historySize (length (h ++ [x]))) as [L|L];
    [|reflexivity].
  rewrite length_app in L. simpl in L. lia.
Qed.

Lemma pushHistory_full (h : list Q) (x : Q) :
  length h = historySize -> pushHistory h x = tl h ++ [x].
Proof.
  intro H. unfold pushHistory, push, shift.
  destruct (Nat.ltb_spec historySize (length (h ++ [x]))) as [L|L].
  - destruct h as [|y h]; [discriminate H|reflexivity].
  - rewrite length_app in L. simpl in L. lia.
Qed.

Lemma pushHistory_length (h : list Q) (x : Q) :
  (length h <= historySize)%nat ->
  (length (pushHistory h x) <= historySize)%nat.
Proof.
  intro H. destruct (Nat.eq_dec (length h) historySize) as [E|E].
  - rewrite (pushHistory_full h x E), length_app.
    destruct h as [|y h]; [discriminate E|]. simpl in *. lia.
  - rewrite pushHistory_below by lia. rewrite length_app. simpl. lia.
Qed.

(** One step keeps the newest [historySize] samples, in order. *)
Lemma pushHistory_skipn (h : list Q) (x : Q) :
  (length h <= historySize)%nat ->
  pushHistory h x = skipn (length (h ++ [x]) - historySize) (h ++ [x]).
Proof.
  intro H. destruct (Nat.eq_dec (length h) historySize) as [E|E].
  - rewrite (pushHistory_full h x E), length_app, E. simpl length.
    replace (historySize + 1 - historySize)%nat with 1%nat by lia.
    destruct h as [|y h]; [discriminate E|reflexivity].
  - rewrite pushHistory_below by lia.
    replace (length (h ++ [x]) - historySize)%nat with 0%nat;
      [reflexivity|].
    rewrite length_app. simpl. lia.
Qed.

Lemma pushAll_skipn (xs h : list Q) :
  (length h <= historySize)%nat ->
  pushAll h xs = skipn (length (h ++ xs) - historySize) (h ++ xs).
Proof.
  revert h. induction xs as [|x xs IH]; intros h H.
  - simpl. rewrite app_nil_r.
    replace (length h - historySize)%nat with 0%nat by lia. reflexivity.
  - change (pushAll h (x :: xs)) with (pushAll (pushHistory h x) xs).
    rewrite IH by (apply pushHistory_length; exact H).
    rewrite (pushHistory_skipn h x H).
    set (l := h ++ [x]). set (b := (length l - historySize)%nat).
    assert (Hb : (b <= length l)%nat) by (unfold b; lia).
    assert (Hl : h ++ x :: xs = l ++ xs)
      by (unfold l; rewrite <- app_assoc; reflexivity).
    rewrite Hl.
    assert (Hs : skipn b l ++ xs = skipn b (l ++ xs)).
    { rewrite skipn_app.
      replace (b - length l)%nat with 0%nat by lia. reflexivity. }
    rewrite Hs, skipn_skipn. f_equal.
    rewrite length_skipn, !length_app.
    assert (Hlen : (length l <= historySize + 1)%nat)
      by (unfold l; rewrite length_app; cbn [length]; lia).
    unfold b. lia.
Qed.

Lemma pushAll_length (xs h : list Q) :
  (length h <= historySize)%nat ->
  (length (pushAll h xs) <= historySize)%nat.
Proof.
  revert h. induction xs as [|x xs IH]; intros h H; [exact H|].
  apply IH, pushHistory_length, H.
Qed.

Lemma audioAnalysis_history (e : env) (i : input) (r : refs) :
  history (audioAnalysis e i r) = energyHistoryRef r \/
  history (audioAnalysis e i r)
  = pushHistory (energyHistoryRef r) (bassLevelOf (dataArray i)).
Proof.
  unfold audioAnalysis, analyse.
  destruct (analyser e && (isPlaying e || isRecording e)); [right|left];
    [|reflexivity].
  destruct (gt_nan _ _ && _); [destruct (Qgt_bool _ _)|]; reflexivity.
Qed.

Lemma renderFrame_history (e : env) (i : input) (r : refs) :
  (length (energyHistoryRef r) <= historySize)%nat ->
  (length (energyHistoryRef (fst (renderFrame e i r))) <= historySize)%nat.
Proof.
  intro H. unfold renderFrame.
  destruct (negb (ready e)); [exact H|]. simpl.
  destruct (audioAnalysis_history e i r) as [E|E]; rewrite E;
    [exact H|apply pushHistory_length, H].
Qed.

Lemma run_history (e : env) (ins : list input) (r : refs) :
  (length (energyHistoryRef r) <= historySize)%nat ->
  (length (energyHistoryRef (fst (run e ins r))) <= historySize)%nat.
Proof.
  revert r. induction ins as [|i ins IH]; intros r H; [exact H|].
  simpl. apply IH, renderFrame_history, H.
Qed.

End History.

(** C4. The energy history is a FIFO bounded by 60: after every frame of
    every run of the render loop it holds at most 60 samples, and so does
    every history reached by pushing samples one after the other; a push
    on a full history drops the oldest sample and appends the new one;
    after any pushes the history is the newest 60 samples, in the order
    they were pushed. *)
Theorem energyHistory_bounded_fifo :
  (forall e ins,
      (length (Render.energyHistoryRef (fst (Render.run e ins Render.init)))
       <= 60)%nat)
  /\ (forall xs n,
         (length (Render.pushAll [] (firstn n xs)) <= 60)%nat)
  /\ (forall h x,
         length h = 60%nat -> Render.pushHistory h x = tl h ++ [x])
  /\ (forall xs,
         Render.pushAll [] xs = skipn (length xs - 60) xs).
Proof.
  split; [|split; [|split]].
  - intros e ins. apply run_history. simpl. lia.
  - intros xs n. apply pushAll_length. simpl. lia.
  - intros h x H. apply pushHistory_full. exact H.
  - intros xs. apply (pushAll_skipn xs []). simpl. lia.
Qed.

(** A full history and a push on it, run. *)
Lemma energyHistory_bounded_fifo_witness :
  length (map inject_Z (map Z.of_nat (seq 0 60))) = 60%nat
  /\ Render.pushHistory (map inject_Z (map Z.of_nat (seq 0 60))) 7
     = tl (map inject_Z (map Z.of_nat (seq 0 60))) ++ [7].
Proof.
  split; [reflexivity|].
  apply (proj1 (proj2 (proj2 energyHistory_bounded_fifo))). reflexivity.
Defined.

(** ** The sequencer *)

Section SequencerFacts.
Import Render.

Lemma advance_range (index : Z) :
  (0 <= index)%Z -> (0 <= advance index < 6)%Z.
Proof.
  intro H. unfold advance. change sequence_length with 6%Z.
  apply Z.rem_bound_pos; lia.
Qed.

Lemma stutter_range (index : Z) :
  (0 <= index)%Z -> (0 <= stutter index < 6)%Z.
Proof.
  intro H. unfold stutter. change sequence_length with 6%Z.
  apply Z.rem_bound_pos; lia.
Qed.

Lemma onBeat_range (random : Q) (index : Z) :
  (0 <= index)%Z -> (0 <= onBeat random index < 6)%Z.
Proof.
  intro H. unfold onBeat.
  pose proof (advance_range index H) as Ha.
  destruct (Qgt_bool (1 # 10) random); [apply stutter_range; lia|exact Ha].
Qed.

Lemma lookup_defined (index : Z) :
  (0 <= index < 6)%Z -> exists pose, lookup sequence index = Some pose.
Proof.
  intro H.
  assert (C : index = 0%Z \/ index = 1%Z \/ index = 2%Z \/ index = 3%Z
              \/ index = 4%Z \/ index = 5%Z) by lia.
  destruct C as [C|[C|[C|[C|[C|C]]]]]; subst index;
    eexists; reflexivity.
Qed.

Lemma renderFrame_index (e : env) (i : input) (r : refs) :
  ready e = true ->
  sequenceIndexRef (fst (renderFrame e i r))
  = if isBeat (audioAnalysis e i r)
    then onBeat (random i) (sequenceIndexRef r)
    else sequenceIndexRef r.
Proof.
  intro H. unfold renderFrame. rewrite H. reflexivity.
Qed.

End SequencerFacts.

(** C7. The pose order is the array [base, var1, var2, var3, var2, var1]
    of length 6; a frame with an accepted beat moves the index to
    (index + 1) % 6 and, when the stutter applies (the random draw is
    below 0.1), on to (that + 2) % 6, a frame without a beat leaves it;
    from index 0, advances without stutter show base, var1, var2, var3,
    var2, var1 and then base again, and the index is back at 0 after 6
    advances and not before. *)
Theorem sequencer_cycle :
  Render.sequence
  = [Render.base; Render.var1; Render.var2; Render.var3; Render.var2;
     Render.var1]
  /\ Render.sequence_length = 6%Z
  /\ (forall random index,
         Render.onBeat random index
         = if Qgt_bool (1 # 10) random
           then Z.rem (Z.rem (index + 1) 6 + 2) 6
           else Z.rem (index + 1) 6)
  /\ (forall e i r,
         Render.ready e = true ->
         Render.sequenceIndexRef (fst (Render.renderFrame e i r))
         = if Render.isBeat (Render.audioAnalysis e i r)
           then Render.onBeat (Render.random i) (Render.sequenceIndexRef r)
           else Render.sequenceIndexRef r)
  /\ map (fun n => Render.lookup Render.sequence (Render.advances n 0))
         (seq 0 7)
     = [Some Render.base; Some Render.var1; Some Render.var2;
        Some Render.var3; Some Render.var2; Some Render.var1;
        Some Render.base]
  /\ (forall n, (0 < n < 6)%nat -> Render.advances n 0 <> 0%Z)
  /\ Render.advances 6 0 = 0%Z.
Proof.
  repeat split.
  - intros e i r H. apply renderFrame_index, H.
  - intros n H.
    assert (C : (n = 1 \/ n = 2 \/ n = 3 \/ n = 4 \/ n = 5)%nat) by lia.
    destruct C as [C|[C|[C|[C|C]]]]; subst n; vm_compute; discriminate.
Qed.

(** C10. From an index in 0..5 every frame, with or without a beat and
    with or without the stutter, leaves an index in 0..5, and the pose
    looked up in the cycle array for the frame is defined. *)
Theorem sequence_index_in_bounds (e : Render.env) (i : Render.input)
        (r : Render.refs) :
  (0 <= Render.sequenceIndexRef r < 6)%Z ->
  (0 <= Render.sequenceIndexRef (fst (Render.renderFrame e i r)) < 6)%Z
  /\ (forall random,
         (0 <= Render.onBeat random (Render.sequenceIndexRef r) < 6)%Z)
  /\ (forall f,
         snd (Render.renderFrame e i r) = Some f ->
         exists pose, Render.desiredPose f = Some pose).
Proof.
  intro H.
  assert (Hb : forall random,
             (0 <= Render.onBeat random (Render.sequenceIndexRef r) < 6)%Z)
    by (intro random; apply onBeat_range; lia).
  assert (Hi : (0 <= (if Render.isBeat (Render.audioAnalysis e i r)
                      then Render.onBeat (Render.random i)
                                         (Render.sequenceIndexRef r)
                      else Render.sequenceIndexRef r) < 6)%Z)
    by (destruct (Render.isBeat _); [apply Hb|exact H]).
  unfold Render.renderFrame.
  destruct (negb (Render.ready e)); simpl.
  - split; [exact H|split; [exact Hb|]]. intros f Hf. discriminate Hf.
  - split; [exact Hi|split; [exact Hb|]].
    intros f Hf. injection Hf as <-. simpl.
    apply lookup_defined, Hi.
Qed.

(** A kick after three silent frames moves the index from 0 to 1. *)
Lemma sequencer_cycle_witness :
  Render.ready (Samples.playing 50) = true
  /\ Render.sequenceIndexRef
       (fst (Render.renderFrame (Samples.playing 50) (Samples.kick (401 # 2))
                                Samples.warm))
     = 1%Z.
Proof.
  split; [reflexivity|].
  rewrite (proj1 (proj2 (proj2 (proj2 sequencer_cycle)))
             (Samples.playing 50) (Samples.kick (401 # 2)) Samples.warm
             eq_refl).
  vm_compute. reflexivity.
Defined.

(** The same frame: the index stays within 0..5. *)
Lemma sequence_index_in_bounds_witness :
  (0 <= Render.sequenceIndexRef Samples.warm < 6)%Z
  /\ (0 <= Render.sequenceIndexRef
             (fst (Render.renderFrame (Samples.playing 50)
                                      (Samples.kick (401 # 2)) Samples.warm))
      < 6)%Z.
Proof.
  assert (H : (0 <= Render.sequenceIndexRef Samples.warm < 6)%Z)
    by (vm_compute; split; [discriminate|reflexivity]).
  split; [exact H|].
  exact (proj1 (sequence_index_in_bounds (Samples.playing 50)
                  (Samples.kick (401 # 2)) Samples.warm H)).
Defined.

(** ** The beat detector *)

Section DetectorFacts.
Import Render.

Lemma getBin_range (dataArray : list byte) (i : nat) :
  (0 <= getBin dataArray i <= 255)%Z.
Proof.
  unfold getBin. pose proof (Byte.to_N_bounded (nth i dataArray x00)). lia.
Qed.

Lemma bassSum_range (dataArray : list byte) :
  (0 <= bassSum dataArray <= 1530)%Z.
Proof.
  unfold bassSum.
  change (seq startBin (endBin - startBin)) with [2; 3; 4; 5; 6; 7]%nat.
  cbn [fold_left].
  pose proof (getBin_range dataArray 2). pose proof (getBin_range dataArray 3).
  pose proof (getBin_range dataArray 4). pose proof (getBin_range dataArray 5).
  pose proof (getBin_range dataArray 6). pose proof (getBin_range dataArray 7).
  lia.
Qed.

(** The bass level is a number between 0 and 1. *)
Lemma bassLevelOf_range (dataArray : list byte) :
  0 <= bassLevelOf dataArray <= 1.
Proof.
  unfold bassLevelOf. change (inject_Z (Z.of_nat (endBin - startBin))) with 6.
  destruct (bassSum_range dataArray) as [L U].
  rewrite Zle_Qle in L, U. change (inject_Z 0) with 0 in L.
  change (inject_Z 1530) with 1530 in U.
  set (q := inject_Z (bassSum dataArray)) in *.
  assert (E : q / 6 / 255 == q * (1 # 1530)) by field.
  rewrite E. split; lra.
Qed.

(** The array is never empty when the mean is taken. *)
Lemma pushHistory_nonempty (h : list Q) (x : Q) : pushHistory h x <> [].
Proof.
  unfold pushHistory, push, shift.
  destruct (Nat.ltb_spec historySize (length (h ++ [x]))) as [L|L].
  - destruct (h ++ [x]) as [|y [|z l]]; simpl in *;
      [unfold historySize in L; lia|unfold historySize in L; lia
      |discriminate].
  - destruct h; discriminate.
Qed.

Lemma avgEnergyOf_defined (h : list Q) :
  h <> [] ->
  avgEnergyOf h = Some (reduceSum h / inject_Z (Z.of_nat (length h))).
Proof. destruct h; [congruence|reflexivity]. Qed.

Lemma analyse_fields (intensity time : Q) (dataArray : list byte) (r : refs) :
  let a := analyse intensity time dataArray r in
  bassLevel a = bassLevelOf dataArray
  /\ history a = pushHistory (energyHistoryRef r) (bassLevelOf dataArray)
  /\ avgEnergy a = avgEnergyOf (history a)
  /\ threshold a
     = option_map (fun x => thresholdOf x intensity) (avgEnergy a)
  /\ isBeat a
     = gt_nan (bassLevel a) (threshold a)
       && Qgt_bool (bassLevel a) (3 # 10)
       && Qgt_bool (time - lastBeatTimeRef r) 200
  /\ lastBeatTime a = if isBeat a then time else lastBeatTimeRef r.
Proof.
  unfold analyse.
  destruct (gt_nan _ _) eqn:E1; simpl;
    [destruct (Qgt_bool (bassLevelOf dataArray) (3 # 10)) eqn:E2; simpl;
     [destruct (Qgt_bool (time - lastBeatTimeRef r) 200) eqn:E3; simpl|]|];
    rewrite ?E1, ?E2, ?E3; repeat split; reflexivity.
Qed.

End DetectorFacts.

(** C1, as the code has it.  On every frame on which the bass level is
    computed, the baseline is the mean of the history after the push of
    the frame's sample, the threshold is the baseline times the
    sensitivity, and a beat is accepted if and only if
    bassLevel > threshold and bassLevel > 0.3 and more than 200 ms have
    passed since the last accepted beat (time - lastBeatTime > 200); the
    last-beat time becomes the frame's timestamp on acceptance and is
    unchanged otherwise. *)
Theorem beat_acceptance (e : Render.env) (i : Render.input) (r : Render.refs) :
  Render.analyser e = true ->
  (Render.isPlaying e || Render.isRecording e) = true ->
  let a := Render.audioAnalysis e i r in
  exists baseline,
    Render.avgEnergy a = Some baseline
    /\ Render.avgEnergy a
       = Render.avgEnergyOf
           (Render.pushHistory (Render.energyHistoryRef r) (Render.bassLevel a))
    /\ Render.threshold a
       = Some (baseline * Render.sensitivityOf (Render.intensity e))
    /\ (Render.isBeat a = true <->
        baseline * Render.sensitivityOf (Render.intensity e)
        < Render.bassLevel a
        /\ 3 # 10 < Render.bassLevel a
        /\ 200 < Render.time i - Render.lastBeatTimeRef r)
    /\ Render.lastBeatTime a
       = (if Render.isBeat a then Render.time i else Render.lastBeatTimeRef r)
    /\ (Render.ready e = true ->
        Render.lastBeatTimeRef (fst (Render.renderFrame e i r))
        = Render.lastBeatTime a).
Proof.
  intros Ha Hp a.
  assert (Ea : a = Render.analyse (Render.intensity e) (Render.time i)
                                  (Render.dataArray i) r).
  { unfold a, Render.audioAnalysis. rewrite Ha, Hp. reflexivity. }
  destruct (analyse_fields (Render.intensity e) (Render.time i)
                           (Render.dataArray i) r)
    as (Hb & Hh & Hav & Hth & Hbeat & Hlast).
  rewrite <- Ea in Hb, Hh, Hav, Hth, Hbeat, Hlast.
  pose proof (pushHistory_nonempty (Render.energyHistoryRef r)
                                   (Render.bassLevelOf (Render.dataArray i)))
    as Hne.
  rewrite <- Hh in Hne.
  pose proof (avgEnergyOf_defined _ Hne) as Hdef. rewrite <- Hav in Hdef.
  eexists. split; [exact Hdef|].
  split; [rewrite Hav, Hh, Hb; reflexivity|].
  split; [rewrite Hth, Hdef; reflexivity|].
  split; [|split; [exact Hlast|]].
  - rewrite Hbeat, Hth, Hdef. simpl gt_nan. unfold Render.thresholdOf.
    rewrite !andb_true_iff, !Qgt_bool_iff. tauto.
  - intro Hr. unfold Render.renderFrame. rewrite Hr. reflexivity.
Qed.

(** A kick after three silent frames, 200.5 ms after the start. *)
Lemma beat_acceptance_witness :
  Render.analyser (Samples.playing 50) = true
  /\ (Render.isPlaying (Samples.playing 50)
      || Render.isRecording (Samples.playing 50)) = true
  /\ exists baseline,
      Render.avgEnergy
        (Render.audioAnalysis (Samples.playing 50) (Samples.kick (401 # 2))
                              Samples.warm)
      = Some baseline.
Proof.
  split; [reflexivity|]. split; [reflexivity|].
  destruct (beat_acceptance (Samples.playing 50) (Samples.kick (401 # 2))
                            Samples.warm eq_refl eq_refl)
    as (baseline & H & _).
  exists baseline. exact H.
Defined.

(** C1 as stated fails: a frame exactly 200 ms after the last beat time,
    with the bass level above the threshold and above 0.3, is not
    accepted, and the last-beat time stays. *)
Lemma beat_at_200ms_not_accepted :
  (exists t,
      Render.threshold
        (Render.audioAnalysis (Samples.playing 50) (Samples.kick 200)
                              Samples.warm)
      = Some t
      /\ t < Render.bassLevel
               (Render.audioAnalysis (Samples.playing 50) (Samples.kick 200)
                                     Samples.warm))
  /\ 3 # 10 < Render.bassLevel
                (Render.audioAnalysis (Samples.playing 50) (Samples.kick 200)
                                      Samples.warm)
  /\ 200 <= Render.time (Samples.kick 200)
            - Render.lastBeatTimeRef Samples.warm
  /\ Render.isBeat
       (Render.audioAnalysis (Samples.playing 50) (Samples.kick 200)
                             Samples.warm)
     = false
  /\ Render.lastBeatTimeRef
       (fst (Render.renderFrame (Samples.playing 50) (Samples.kick 200)
                                Samples.warm))
     = Render.lastBeatTimeRef Samples.warm.
Proof.
  split; [|split; [|split; [|split]]].
  - eexists. split; [vm_compute; reflexivity|]. vm_compute. reflexivity.
  - vm_compute. reflexivity.
  - vm_compute. discriminate.
  - vm_compute. reflexivity.
  - vm_compute. reflexivity.
Qed.

(** ** Sensitivity and threshold *)

Section ThresholdFacts.
Import Render.

Lemma sensitivityOf_linear (intensity : Q) :
  sensitivityOf intensity == (3 # 2) - intensity * (1 # 200).
Proof. unfold sensitivityOf. field. Qed.

Lemma sensitivityOf_range (intensity : Q) :
  0 <= intensity -> intensity <= 100 ->
  1 <= sensitivityOf intensity /\ sensitivityOf intensity <= 3 # 2.
Proof.
  intros L U. rewrite sensitivityOf_linear. split; lra.
Qed.

Lemma sensitivityOf_decreasing (s1 s2 : Q) :
  s1 < s2 -> sensitivityOf s2 < sensitivityOf s1.
Proof. intro H. rewrite !sensitivityOf_linear. lra. Qed.

End ThresholdFacts.

(** C5, as the code has it.  For every fixed baseline above 0, raising
    the reactivity setting within 0..100 strictly lowers the threshold
    baseline * (1.5 - setting/200); for the baseline 0 the threshold is 0
    at every setting. *)
Theorem threshold_strictly_decreasing (baseline s1 s2 : Q) :
  0 <= s1 -> s1 < s2 -> s2 <= 100 ->
  (0 < baseline ->
   Render.thresholdOf baseline s2 < Render.thresholdOf baseline s1)
  /\ (baseline == 0 ->
      Render.thresholdOf baseline s1 == 0
      /\ Render.thresholdOf baseline s2 == 0).
Proof.
  intros _ H _. split.
  - intro Hb. unfold Render.thresholdOf.
    apply Qmult_lt_l; [exact Hb|]. apply sensitivityOf_decreasing, H.
  - intro Hb. unfold Render.thresholdOf. rewrite Hb. split; ring.
Qed.

(** The settings 0 and 100 on the baseline 1/4. *)
Lemma threshold_strictly_decreasing_witness :
  0 <= 0 /\ 0 < 100 /\ 100 <= 100 /\ 0 < 1 # 4
  /\ Render.thresholdOf (1 # 4) 100 < Render.thresholdOf (1 # 4) 0.
Proof.
  assert (H1 : 0 <= 0) by (vm_compute; discriminate).
  assert (H2 : 0 < 100) by reflexivity.
  assert (H3 : 100 <= 100) by (vm_compute; discriminate).
  assert (H4 : 0 < 1 # 4) by reflexivity.
  repeat (split; [assumption|]).
  exact (proj1 (threshold_strictly_decreasing (1 # 4) 0 100 H1 H2 H3) H4).
Defined.

(** C5 as stated fails: on a silent frame the baseline is 0, and the
    threshold at the setting 100 is not below the threshold at the
    setting 0. *)
Lemma threshold_not_decreasing_on_silence :
  exists baseline t0 t100,
    Render.avgEnergy
      (Render.audioAnalysis (Samples.playing 0) (Samples.silence 0)
                            Render.init)
    = Some baseline
    /\ Render.threshold
         (Render.audioAnalysis (Samples.playing 0) (Samples.silence 0)
                               Render.init)
       = Some t0
    /\ Render.threshold
         (Render.audioAnalysis (Samples.playing 100) (Samples.silence 0)
                               Render.init)
       = Some t100
    /\ t0 = Render.thresholdOf baseline 0
    /\ t100 = Render.thresholdOf baseline 100
    /\ ~ t100 < t0.
Proof.
  do 3 eexists.
  split; [vm_compute; reflexivity|].
  split; [vm_compute; reflexivity|].
  split; [vm_compute; reflexivity|].
  split; [vm_compute; reflexivity|].
  split; [vm_compute; reflexivity|].
  vm_compute. discriminate.
Qed.

(** C6, the code at the two ends of the control.  The multiplier
    1.5 - setting/200 is 1.5 at the setting 0 and 1 at the setting 100;
    over the settings 0..100 it stays between 1 and 1.5, and it is 0.5
    only at the setting 200. *)
Theorem sensitivity_range_of_control :
  Render.sensitivityOf 0 == 3 # 2
  /\ Render.sensitivityOf 100 == 1
  /\ ~ Render.sensitivityOf 100 == 1 # 2
  /\ (forall intensity,
         0 <= intensity -> intensity <= 100 ->
         1 <= Render.sensitivityOf intensity
         /\ Render.sensitivityOf intensity <= 3 # 2)
  /\ (forall intensity,
         Render.sensitivityOf intensity == 1 # 2 <-> intensity == 200).
Proof.
  split; [vm_compute; reflexivity|].
  split; [vm_compute; reflexivity|].
  split; [vm_compute; discriminate|].
  split; [exact sensitivityOf_range|].
  intro intensity. rewrite sensitivityOf_linear. split; intro H; lra.
Qed.

(** The default setting, 50. *)
Lemma sensitivity_range_of_control_witness :
  1 <= Render.sensitivityOf 50 /\ Render.sensitivityOf 50 <= 3 # 2.
Proof.
  apply (proj1 (proj2 (proj2 (proj2 sensitivity_range_of_control)))).
  - vm_compute. discriminate.
  - vm_compute. discriminate.
Defined.

(** ** The history before its first sample *)

(** C9, as the code has it.  When the history is empty before a frame on
    which the bass level is computed, the sample is pushed first: the
    mean is taken over the one-element history and is a number, equal to
    the bass level of the frame; at the settings 0..100 no beat is
    accepted on that frame, whatever the bass level. *)
Theorem first_sample_baseline (e : Render.env) (i : Render.input)
        (r : Render.refs) :
  Render.analyser e = true ->
  (Render.isPlaying e || Render.isRecording e) = true ->
  Render.energyHistoryRef r = [] ->
  0 <= Render.intensity e -> Render.intensity e <= 100 ->
  let a := Render.audioAnalysis e i r in
  Render.history a = [Render.bassLevel a]
  /\ (exists baseline,
         Render.avgEnergy a = Some baseline
         /\ baseline == Render.bassLevel a)
  /\ Render.isBeat a = false.
Proof.
  intros Ha Hp Hh L U a.
  assert (Ea : a = Render.analyse (Render.intensity e) (Render.time i)
                                  (Render.dataArray i) r).
  { unfold a, Render.audioAnalysis. rewrite Ha, Hp. reflexivity. }
  destruct (analyse_fields (Render.intensity e) (Render.time i)
                           (Render.dataArray i) r)
    as (Hb & Hhist & Hav & Hth & Hbeat & _).
  rewrite <- Ea in Hb, Hhist, Hav, Hth, Hbeat.
  rewrite Hh in Hhist. change (Render.pushHistory [] ?x) with [x] in Hhist.
  rewrite <- Hb in Hhist.
  assert (Hmean : Render.avgEnergy a
                  = Some ((0 + Render.bassLevel a) / 1)).
  { rewrite Hav, Hhist. reflexivity. }
  split; [exact Hhist|]. split.
  - eexists. split; [exact Hmean|]. field.
  - rewrite Hbeat, Hth, Hmean. simpl gt_nan.
    assert (Hle : Render.bassLevel a
                  <= Render.thresholdOf ((0 + Render.bassLevel a) / 1)
                                        (Render.intensity e)).
    { unfold Render.thresholdOf. rewrite sensitivityOf_linear.
      pose proof (bassLevelOf_range (Render.dataArray i)) as [B0 _].
      rewrite <- Hb in B0.
      set (b := Render.bassLevel a) in *. set (s := Render.intensity e) in *.
      assert (E : (0 + b) / 1 * ((3 # 2) - s * (1 # 200))
                  == b * ((3 # 2) - s * (1 # 200))) by field.
      rewrite E. nra. }
    apply Qgt_bool_false_iff in Hle. rewrite Hle. reflexivity.
Qed.

(** A kick as the first frame, at the setting 50. *)
Lemma first_sample_baseline_witness :
  Render.energyHistoryRef Render.init = []
  /\ 0 <= Render.intensity (Samples.playing 50)
  /\ Render.intensity (Samples.playing 50) <= 100
  /\ Render.isBeat
       (Render.audioAnalysis (Samples.playing 50) (Samples.kick 1000)
                             Render.init)
     = false.
Proof.
  assert (L : 0 <= Render.intensity (Samples.playing 50))
    by (vm_compute; discriminate).
  assert (U : Render.intensity (Samples.playing 50) <= 100)
    by (vm_compute; discriminate).
  split; [reflexivity|]. split; [exact L|]. split; [exact U|].
  exact (proj2 (proj2 (first_sample_baseline (Samples.playing 50)
                         (Samples.kick 1000) Render.init
                         eq_refl eq_refl eq_refl L U))).
Defined.

(** C9 as stated fails: with an empty history and a kick as the incoming
    sample, the baseline computed on the frame is 1, not 0; and the mean
    of an empty array, which the frame never takes, is not a number. *)
Lemma first_sample_baseline_not_zero :
  Render.energyHistoryRef Render.init = []
  /\ (exists baseline,
         Render.avgEnergy
           (Render.audioAnalysis (Samples.playing 50) (Samples.kick 1000)
                                 Render.init)
         = Some baseline
         /\ baseline == 1 /\ ~ baseline == 0)
  /\ Render.avgEnergyOf [] = None.
Proof.
  split; [reflexivity|]. split; [|reflexivity].
  eexists. split; [vm_compute; reflexivity|].
  split; [vm_compute; reflexivity|vm_compute; discriminate].
Qed.

(** ** The beat flash *)

Section FlashFacts.
Import Render.

Lemma flashOverlay_above (beatFlash : Q) :
  1 # 100 < beatFlash ->
  flashOverlay beatFlash
  = (beatFlash * (85 # 100), Some (beatFlash * (85 # 100) * (15 # 100))).
Proof.
  intro H. unfold flashOverlay.
  apply Qgt_bool_iff in H. rewrite H. reflexivity.
Qed.

Lemma flashOverlay_below (beatFlash : Q) :
  beatFlash <= 1 # 100 -> flashOverlay beatFlash = (beatFlash, None).
Proof.
  intro H. unfold flashOverlay.
  apply Qgt_bool_false_iff in H. rewrite H. reflexivity.
Qed.

Lemma flashOverlay_range (beatFlash : Q) :
  0 <= beatFlash <= 1 -> 0 <= fst (flashOverlay beatFlash) <= 1.
Proof.
  intros [L U]. unfold flashOverlay.
  destruct (Qgt_bool beatFlash (1 # 100)); simpl; split; lra.
Qed.

Lemma renderFrame_flash (e : env) (i : input) (r : refs) :
  ready e = true ->
  renderFrame e i r
  = let a := audioAnalysis e i r in
    let index1 := if isBeat a then onBeat (random i) (sequenceIndexRef r)
                  else sequenceIndexRef r in
    let fo := flashOverlay (if isBeat a then 1 else beatFlashRef r) in
    (mkRefs (lastBeatTime a) (history a) index1 (fst fo),
     Some (mkFrame (isBeat a) (bassLevel a) (lookup sequence index1)
                   (snd fo))).
Proof. intro H. unfold renderFrame. rewrite H. reflexivity. Qed.

Lemma renderFrame_flash_range (e : env) (i : input) (r : refs) :
  0 <= beatFlashRef r <= 1 ->
  0 <= beatFlashRef (fst (renderFrame e i r)) <= 1.
Proof.
  intro H. unfold renderFrame.
  destruct (negb (ready e)); [exact H|]. simpl.
  apply flashOverlay_range.
  destruct (isBeat (audioAnalysis e i r)); [split; lra|exact H].
Qed.

Lemma run_flash_range (e : env) (ins : list input) (r : refs) :
  0 <= beatFlashRef r <= 1 ->
  0 <= beatFlashRef (fst (run e ins r)) <= 1.
Proof.
  revert r. induction ins as [|i ins IH]; intros r H; [exact H|].
  simpl. apply IH, renderFrame_flash_range, H.
Qed.

End FlashFacts.

(** C8, as the code has it.  On a rendered frame with an accepted beat
    the flash is reset to 1.0 and then decays once, to 0.85.  On a
    rendered frame without a beat, a flash above 0.01 is multiplied by
    0.85 and a flash of at most 0.01 is left as it is.  The white overlay
    is drawn exactly when the flash was above 0.01, with alpha 0.15 times
    the decayed flash; the flash never exceeds 1 on a run of the loop, so
    the alpha is at most 0.15. *)
Theorem flash_decay (e : Render.env) (i : Render.input) (r : Render.refs) :
  Render.ready e = true ->
  let a := Render.audioAnalysis e i r in
  let rf := Render.renderFrame e i r in
  exists f,
    snd rf = Some f
    /\ (Render.isBeat a = true ->
        Render.beatFlashRef (fst rf) == 85 # 100
        /\ exists alpha,
            Render.overlay f = Some alpha
            /\ alpha == (85 # 100) * (15 # 100))
    /\ (Render.isBeat a = false -> 1 # 100 < Render.beatFlashRef r ->
        Render.beatFlashRef (fst rf) = Render.beatFlashRef r * (85 # 100)
        /\ Render.overlay f
           = Some (Render.beatFlashRef r * (85 # 100) * (15 # 100)))
    /\ (Render.isBeat a = false -> Render.beatFlashRef r <= 1 # 100 ->
        Render.beatFlashRef (fst rf) = Render.beatFlashRef r
        /\ Render.overlay f = None)
    /\ (Render.beatFlashRef r <= 1 ->
        forall alpha, Render.overlay f = Some alpha -> alpha <= 15 # 100)
    /\ (forall ins,
           Render.beatFlashRef (fst (Render.run e ins Render.init)) <= 1).
Proof.
  intros Hr a rf. unfold rf. rewrite (renderFrame_flash e i r Hr).
  fold a. cbv zeta. eexists. split; [reflexivity|]. cbn [fst snd].
  cbn [Render.beatFlashRef Render.overlay].
  split; [|split; [|split; [|split]]].
  - intro Hb. rewrite Hb.
    rewrite flashOverlay_above by reflexivity. cbn [fst snd].
    split; [ring|]. eexists. split; [reflexivity|ring].
  - intros Hb Hf. rewrite Hb, (flashOverlay_above _ Hf). split; reflexivity.
  - intros Hb Hf. rewrite Hb, (flashOverlay_below _ Hf). split; reflexivity.
  - intros Hf alpha. unfold Render.flashOverlay.
    destruct (Render.isBeat a);
      destruct (Qgt_bool _ (1 # 100)) eqn:E; cbn [snd]; intro H;
      try discriminate H; injection H as <-.
    + lra.
    + apply Qgt_bool_iff in E. lra.
  - intro ins. apply run_flash_range. simpl. split; lra.
Qed.

(** The frame after a kick: the flash goes from 0.85 to 0.85 * 0.85. *)
Lemma flash_decay_witness :
  Render.ready (Samples.playing 50) = true
  /\ exists f,
      snd (Render.renderFrame (Samples.playing 50) (Samples.silence 1016)
             (fst (Render.run (Samples.playing 50) (Samples.fading 0)
                              Render.init)))
      = Some f.
Proof.
  split; [reflexivity|].
  destruct (flash_decay (Samples.playing 50) (Samples.silence 1016)
              (fst (Render.run (Samples.playing 50) (Samples.fading 0)
                               Render.init)) eq_refl)
    as (f & H & _).
  exists f. exact H.
Defined.

(** C8 as stated fails: 29 frames after a kick the flash has decayed to
    0.85^29, which is positive and below 0.01; the next frame has no beat
    and leaves the flash as it is instead of multiplying it by 0.85. *)
Lemma flash_stops_decaying :
  Render.isBeat
    (Render.audioAnalysis (Samples.playing 50) (Samples.silence 2000)
                          Samples.faded)
  = false
  /\ 0 < Render.beatFlashRef Samples.faded
  /\ Render.beatFlashRef Samples.faded <= 1 # 100
  /\ Render.beatFlashRef
       (fst (Render.renderFrame (Samples.playing 50) (Samples.silence 2000)
                                Samples.faded))
     = Render.beatFlashRef Samples.faded
  /\ ~ Render.beatFlashRef
         (fst (Render.renderFrame (Samples.playing 50) (Samples.silence 2000)
                                  Samples.faded))
       == Render.beatFlashRef Samples.faded * (85 # 100).
Proof.
  split; [vm_compute; reflexivity|].
  split; [vm_compute; reflexivity|].
  split; [vm_compute; discriminate|].
  split; [vm_compute; reflexivity|].
  vm_compute. discriminate.
Qed.

(** ** The capture pipeline *)

Section CaptureFacts.
Import Capture.



Lemma nth_error_replace (l : list session) (k : nat) (s x : session) :
  nth_error l k = Some s -> nth_error (replace k x l) k = Some x.
Proof.
  revert k. induction l as [|y l IH]; intros [|k] H; simpl in *;
    try discriminate; [reflexivity|apply IH, H].
Qed.

Lemma length_replace (l : list session) (k : nat) (x : session) :
  length (replace k x l) = length l.
Proof.
  revert k. induction l as [|y l IH]; intros [|k]; simpl;
    try reflexivity. f_equal. apply IH.
Qed.




Variable p : props.







End CaptureFacts.



(** The guard is the button's: [handleDownload] itself, called on a
    component that records, starts a second session. *)
Remark handleDownload_not_guarded :
  Capture.active Samples.capturing = 1%nat
  /\ Capture.active
       (Capture.handleDownload Samples.tenSeconds (Some Capture.running)
                               Samples.capturing)
     = 2%nat.
Proof. split; reflexivity. Qed.

Section PollFacts.
Import Capture.

Lemma pollAt_below (k : nat) (s : session) (c : component)
      (a : HTMLAudioElement) (x : Q) :
  nth_error (sessions c) k = Some s -> audioRef c = Some a ->
  paused a = false -> interval s = true -> x < duration s ->
  pollAt k c x
  = setDownloadProgress (progressOf x (duration s))
      (set_audio (Some (mkAudio x (loop a) false)) c).
Proof.
  intros N A P I H. unfold pollAt, playback. rewrite A, P.
  unfold poll. simpl. rewrite N, I.
  apply Qge_bool_false_iff in H. rewrite H. reflexivity.
Qed.

Lemma pollAt_reach (k : nat) (s : session) (c : component)
      (a : HTMLAudioElement) (t : Q) :
  nth_error (sessions c) k = Some s -> audioRef c = Some a ->
  paused a = false -> interval s = true -> duration s <= t ->
  pollAt k c t
  = setDownloadProgress 100
      (pause (mkAudio t (loop a) false)
         (set_sessions
            (replace k (mkSession inactive false (duration s)
                                  (S (stops s)) (finalized s))
                     (sessions c))
            (setDownloadProgress (progressOf t (duration s))
               (set_audio (Some (mkAudio t (loop a) false)) c)))).
Proof.
  intros N A P I H. unfold pollAt, playback. rewrite A, P.
  unfold poll. simpl. rewrite N, I.
  apply Qge_bool_iff in H. rewrite H. reflexivity.
Qed.

Lemma pollAt_cleared (k : nat) (s : session) (c : component)
      (a : HTMLAudioElement) (x : Q) :
  nth_error (sessions c) k = Some s -> interval s = false ->
  audioRef c = Some a -> paused a = true ->
  pollAt k c x = c.
Proof.
  intros N I A P. unfold pollAt, playback. rewrite A, P.
  unfold poll. rewrite N, I. reflexivity.
Qed.

Lemma polls_cleared (k : nat) (s : session) (c : component)
      (a : HTMLAudioElement) (ts : list Q) :
  nth_error (sessions c) k = Some s -> interval s = false ->
  audioRef c = Some a -> paused a = true ->
  polls k ts c = c.
Proof.
  intros N I A P. induction ts as [|x ts IH]; [reflexivity|].
  unfold polls in *. simpl.
  rewrite (pollAt_cleared k s c a x N I A P). exact IH.
Qed.

(** While the clock is below the target the session stays armed. *)
Lemma polls_below (k : nat) (s : session) (ts : list Q) (c : component) :
  armed k s c -> interval s = true ->
  (forall x, In x ts -> x < duration s) ->
  armed k s (polls k ts c)
  /\ pauses (polls k ts c) = pauses c
  /\ isRecording (polls k ts c) = isRecording c.
Proof.
  intros H I. revert c H.
  induction ts as [|x ts IH]; intros c H Hts; [auto|].
  destruct H as (N & a & A & P).
  unfold polls in *. simpl.
  pose proof (pollAt_below k s c a x N A P I (Hts x (or_introl eq_refl)))
    as E.
  destruct (IH (pollAt k c x)) as (H1 & H2 & H3).
  - rewrite E. split; [exact N|]. eexists. split; reflexivity.
  - intros y Hy. apply Hts. right. exact Hy.
  - split; [exact H1|]. rewrite H2, H3, E. split; reflexivity.
Qed.

End PollFacts.

(** C2.  A capture session with target duration D > 0 records, its poll
    armed, the audio playing.  Every poll that reads a playback position
    x below D reports the progress min(99, x / D * 100) and stops
    nothing.  The first poll that reads a position t >= D stops the
    encoder and pauses the audio, once each, clears the timer and sets
    the progress to 100; later ticks do nothing.  The encoder's stop
    handler then switches looping on again, puts the position back to 0
    and ends the recording state; the progress stays 100. *)
Theorem capture_termination (k : nat) (s : Capture.session)
        (c : Capture.component) (before after : list Q) (t : Q) :
  Capture.armed k s c ->
  Capture.recorder s = Capture.recording ->
  Capture.interval s = true ->
  Capture.finalized s = false ->
  0 < Capture.duration s ->
  (forall x, In x before -> x < Capture.duration s) ->
  Capture.duration s <= t ->
  (forall pre x post,
      before = pre ++ x :: post ->
      Capture.downloadProgress (Capture.polls k (pre ++ [x]) c)
      = Qmin 99 (x / Capture.duration s * 100)
      /\ nth_error (Capture.sessions (Capture.polls k (pre ++ [x]) c)) k
         = Some s
      /\ Capture.pauses (Capture.polls k (pre ++ [x]) c) = Capture.pauses c)
  /\ (let c2 := Capture.pollAt k (Capture.polls k before c) t in
      nth_error (Capture.sessions c2) k
      = Some (Capture.mkSession Capture.inactive false (Capture.duration s)
                                (S (Capture.stops s)) false)
      /\ Capture.pauses c2 = S (Capture.pauses c)
      /\ (exists a, Capture.audioRef c2 = Some a /\ Capture.paused a = true)
      /\ Capture.downloadProgress c2 = 100
      /\ Capture.polls k after c2 = c2
      /\ (let c4 := Capture.onstop k (Capture.polls k after c2) in
          Capture.audioRef c4 = Some (Capture.mkAudio 0 true true)
          /\ Capture.downloadProgress c4 = 100
          /\ Capture.isRecording c4 = false
          /\ nth_error (Capture.sessions c4) k
             = Some (Capture.mkSession Capture.inactive false
                                       (Capture.duration s)
                                       (S (Capture.stops s)) true))).
Proof.
  intros H R I F _ Hb Ht. split.
  - intros pre x post E.
    assert (Hpre : forall y, In y pre -> y < Capture.duration s).
    { intros y Hy. apply Hb. rewrite E. apply in_or_app. left. exact Hy. }
    assert (Hx : x < Capture.duration s).
    { apply Hb. rewrite E. apply in_or_app. right. left. reflexivity. }
    destruct (polls_below k s pre c H I Hpre) as ((N & a & A & P) & H2 & _).
    unfold Capture.polls in *. rewrite fold_left_app. simpl.
    rewrite (pollAt_below k s _ a x N A P I Hx). simpl.
    split; [reflexivity|]. split; [exact N|exact H2].
  - destruct (polls_below k s before c H I Hb) as ((N & a & A & P) & H2 & _).
    cbv zeta.
    rewrite (pollAt_reach k s _ a t N A P I Ht). rewrite F.
    set (s2 := Capture.mkSession Capture.inactive false (Capture.duration s)
                                 (S (Capture.stops s)) false).
    set (c2 := Capture.setDownloadProgress 100 _).
    assert (N2 : nth_error (Capture.sessions c2) k = Some s2)
      by (apply (nth_error_replace _ k s), N).
    assert (A2 : Capture.audioRef c2
                 = Some (Capture.mkAudio t (Capture.loop a) true))
      by reflexivity.
    assert (E3 : Capture.polls k after c2 = c2)
      by (apply (polls_cleared k s2 c2 _ after N2 eq_refl A2 eq_refl)).
    split; [exact N2|]. split; [simpl; rewrite H2; reflexivity|].
    split; [eexists; split; [exact A2|reflexivity]|].
    split; [reflexivity|]. split; [exact E3|].
    rewrite E3. unfold Capture.onstop. rewrite N2. simpl.
    repeat split.
    apply (nth_error_replace _ k s2), N2.
Qed.

(** Target 10 s; the polls read 0, 5 and 9.9, then 10.0, then two late
    ticks. *)
Lemma capture_termination_witness :
  Capture.armed 0 Samples.started Samples.capturing
  /\ 0 < Capture.duration Samples.started
  /\ (forall x, In x [0; 5; 99 # 10] -> x < Capture.duration Samples.started)
  /\ Capture.duration Samples.started <= 10
  /\ Capture.downloadProgress
       (Capture.pollAt 0
          (Capture.polls 0 [0; 5; 99 # 10] Samples.capturing) 10)
     = 100.
Proof.
  assert (H1 : Capture.armed 0 Samples.started Samples.capturing).
  { split; [reflexivity|]. eexists. split; reflexivity. }
  assert (H2 : 0 < Capture.duration Samples.started) by reflexivity.
  assert (H3 : forall x, In x [0; 5; 99 # 10]
                         -> x < Capture.duration Samples.started).
  { intros x [<-|[<-|[<-|[]]]]; reflexivity. }
  assert (H4 : Capture.duration Samples.started <= 10)
    by (vm_compute; discriminate).
  repeat (split; [assumption|]).
  pose proof (capture_termination 0 Samples.started Samples.capturing
                [0; 5; 99 # 10] [10; 10] 10 H1 eq_refl eq_refl eq_refl
                H2 H3 H4) as (_ & _ & _ & _ & H & _).
  exact H.
Defined.

(** * Further facts *)

(** ** Runs of the render loop *)

Section TraceFacts.
Import Render.

Lemma audioAnalysis_beat (e : env) (i : input) (r : refs) :
  (isBeat (audioAnalysis e i r) = true ->
   200 < time i - lastBeatTimeRef r
   /\ lastBeatTime (audioAnalysis e i r) = time i)
  /\ (isBeat (audioAnalysis e i r) = false ->
      lastBeatTime (audioAnalysis e i r) = lastBeatTimeRef r).
Proof.
  unfold audioAnalysis.
  destruct (analyser e && (isPlaying e || isRecording e)).
  - destruct (analyse_fields (intensity e) (time i) (dataArray i) r)
      as (_ & _ & _ & _ & Hb & Hl).
    split; intro H; rewrite H in Hl.
    + split; [|exact Hl]. rewrite Hb in H.
      apply andb_true_iff in H. apply Qgt_bool_iff. apply H.
    + exact Hl.
  - simpl. split; [discriminate|reflexivity].
Qed.

Lemma run_cons (e : env) (i : input) (ins : list input) (r : refs) :
  fst (run e (i :: ins) r) = fst (run e ins (fst (renderFrame e i r))).
Proof. reflexivity. Qed.

Lemma renderFrame_skipped (e : env) (i : input) (r : refs) :
  ready e = false -> renderFrame e i r = (r, None).
Proof. intro H. unfold renderFrame. rewrite H. reflexivity. Qed.

Lemma renderFrame_drawn (e : env) (i : input) (r : refs) :
  ready e = true ->
  exists f,
    snd (renderFrame e i r) = Some f
    /\ f_isBeat f = isBeat (audioAnalysis e i r)
    /\ lastBeatTimeRef (fst (renderFrame e i r))
       = lastBeatTime (audioAnalysis e i r)
    /\ energyHistoryRef (fst (renderFrame e i r))
       = history (audioAnalysis e i r)
    /\ beatFlashRef (fst (renderFrame e i r))
       = Trace.decay (if isBeat (audioAnalysis e i r)
                      then 1 else beatFlashRef r)
    /\ overlay f
       = snd (flashOverlay (if isBeat (audioAnalysis e i r)
                            then 1 else beatFlashRef r)).
Proof.
  intro H. unfold renderFrame. rewrite H. simpl. eexists.
  repeat split; reflexivity.
Qed.

Lemma last_cons_default (x d d' : Q) (l : list Q) :
  last (x :: l) d = last (x :: l) d'.
Proof.
  revert x. induction l as [|y l IH]; intro x; [reflexivity|].
  change (last (y :: l) d = last (y :: l) d'). apply IH.
Qed.

End TraceFacts.

(** X1. Debounce over a run: on every run of the render loop, from any
    refs, each accepted beat is more than 200 ms after the accepted beat
    before it, and the first one more than 200 ms after the last-beat
    time the run starts with; the last-beat time after the run is the
    timestamp of the last accepted beat. *)
Theorem beats_are_spaced (e : Render.env) (ins : list Render.input)
        (r : Render.refs) :
  Trace.spaced (Render.lastBeatTimeRef r) (Trace.beatTimes e ins r)
  /\ Render.lastBeatTimeRef (fst (Render.run e ins r))
     = last (Trace.beatTimes e ins r) (Render.lastBeatTimeRef r).
Proof.
  revert r. induction ins as [|i ins IH]; intro r; [simpl; auto|].
  rewrite run_cons. cbn [Trace.beatTimes]. cbv zeta.
  destruct (Render.ready e) eqn:Hr.
  - destruct (renderFrame_drawn e i r Hr) as (f & Hf & Hb & Hl & _).
    rewrite Hf, Hb.
    destruct (audioAnalysis_beat e i r) as [Ht Hn].
    destruct (IH (fst (Render.renderFrame e i r))) as [IH1 IH2].
    destruct (Render.isBeat (Render.audioAnalysis e i r)).
    + destruct (Ht eq_refl) as [Hgt Hlast]. rewrite Hl, Hlast in IH1, IH2.
      split; [split; assumption|].
      rewrite IH2.
      destruct (Trace.beatTimes e ins (fst (Render.renderFrame e i r)))
        as [|q l]; [reflexivity|].
      change (last (q :: l) (Render.time i)
              = last (q :: l) (Render.lastBeatTimeRef r)).
      apply last_cons_default.
    + rewrite Hl, (Hn eq_refl) in IH1, IH2. split; assumption.
  - rewrite (renderFrame_skipped e i r Hr). simpl. apply IH.
Qed.

Section LevelFacts.
Import Render.






End LevelFacts.



(** X3. While the preview neither plays nor records (or has no
    analyser), no run of the render loop accepts a beat or touches the
    last-beat time, the energy history or the sequence index; the flash
    only fades. *)
Theorem idle_loop_keeps_state (e : Render.env) (ins : list Render.input)
        (r : Render.refs) :
  Render.analyser e && (Render.isPlaying e || Render.isRecording e) = false ->
  Trace.beatTimes e ins r = []
  /\ Render.lastBeatTimeRef (fst (Render.run e ins r))
     = Render.lastBeatTimeRef r
  /\ Render.energyHistoryRef (fst (Render.run e ins r))
     = Render.energyHistoryRef r
  /\ Render.sequenceIndexRef (fst (Render.run e ins r))
     = Render.sequenceIndexRef r
  /\ Render.beatFlashRef (fst (Render.run e ins r)) <= Render.beatFlashRef r
  /\ Forall (fun o => forall f, o = Some f ->
                                Render.f_isBeat f = false
                                /\ Render.f_bassLevel f = 0)
            (snd (Render.run e ins r)).
Proof.
  intro H. revert r. induction ins as [|i ins IH]; intro r.
  - simpl. repeat split; try reflexivity; [lra|constructor].
  - destruct (IH (fst (Render.renderFrame e i r)))
      as (I1 & I2 & I3 & I4 & I5 & I6).
    rewrite run_cons. cbn [Trace.beatTimes Render.run snd]. cbv zeta.
    unfold Render.renderFrame in *. unfold Render.audioAnalysis in *.
    rewrite H in *.
    destruct (negb (Render.ready e)); cbn [fst snd] in *.
    + repeat split; try assumption.
      constructor; [intros f Hf; discriminate Hf|exact I6].
    + cbn [Render.isBeat Render.f_isBeat Render.lastBeatTimeRef
           Render.energyHistoryRef Render.sequenceIndexRef
           Render.beatFlashRef Render.lastBeatTime Render.history] in *.
      repeat split; try assumption.
      * eapply Qle_trans; [exact I5|].
        unfold Render.flashOverlay.
        destruct (Qgt_bool (Render.beatFlashRef r) (1 # 100)) eqn:E;
          simpl; [apply Qgt_bool_iff in E|]; lra.
      * constructor; [|exact I6].
        intros f Hf. injection Hf as <-. split; reflexivity.
Qed.

(** A paused preview fading the flash of an earlier kick. *)
Lemma idle_loop_keeps_state_witness :
  Render.analyser (Render.mkEnv true true false false 50)
  && (Render.isPlaying (Render.mkEnv true true false false 50)
      || Render.isRecording (Render.mkEnv true true false false 50)) = false
  /\ Render.sequenceIndexRef
       (fst (Render.run (Render.mkEnv true true false false 50)
                        [Samples.kick 3000; Samples.kick 4000] Samples.warm))
     = Render.sequenceIndexRef Samples.warm.
Proof.
  split; [reflexivity|].
  exact (proj1 (proj2 (proj2 (proj2
           (idle_loop_keeps_state (Render.mkEnv true true false false 50)
              [Samples.kick 3000; Samples.kick 4000] Samples.warm
              eq_refl))))).
Defined.

(** X4. From the mounted refs, on every run of the render loop, the
    sequence index stays within 0..5 and every frame that is drawn looks
    up a pose that the cycle array defines. *)
Theorem run_poses_defined (e : Render.env) (ins : list Render.input) :
  (0 <= Render.sequenceIndexRef (fst (Render.run e ins Render.init)) < 6)%Z
  /\ Forall (fun o => forall f, o = Some f ->
                                exists pose, Render.desiredPose f = Some pose)
            (snd (Render.run e ins Render.init)).
Proof.
  assert (G : forall r,
             (0 <= Render.sequenceIndexRef r < 6)%Z ->
             (0 <= Render.sequenceIndexRef (fst (Render.run e ins r)) < 6)%Z
             /\ Forall (fun o => forall f, o = Some f ->
                          exists pose, Render.desiredPose f = Some pose)
                       (snd (Render.run e ins r))).
  { induction ins as [|i ins IH]; intros r H.
    - simpl. split; [exact H|constructor].
    - assert (H1 : (0 <= Render.sequenceIndexRef
                           (fst (Render.renderFrame e i r)) < 6)%Z
                   /\ forall f, snd (Render.renderFrame e i r) = Some f ->
                                exists pose, Render.desiredPose f = Some pose).
      { unfold Render.renderFrame.
        destruct (negb (Render.ready e)); cbn [fst snd].
        - split; [exact H|]. intros f Hf. discriminate Hf.
        - assert (Hi : (0 <= (if Render.isBeat (Render.audioAnalysis e i r)
                              then Render.onBeat (Render.random i)
                                     (Render.sequenceIndexRef r)
                              else Render.sequenceIndexRef r) < 6)%Z)
            by (destruct (Render.isBeat _);
                [apply onBeat_range; lia|exact H]).
          split; [exact Hi|]. intros f Hf. injection Hf as <-.
          apply lookup_defined, Hi. }
      destruct H1 as [H1 H2]. destruct (IH _ H1) as [I1 I2].
      rewrite run_cons. cbn [Render.run snd]. split; [exact I1|].
      constructor; [exact H2|exact I2]. }
  apply G. simpl. lia.
Qed.

(** X5. The stutter is a jump of three: from an index in 0..5, a beat
    on which the random draw is below 0.1 moves the index by 3 modulo 6,
    to the pose half a cycle away, and a second such beat brings it
    back; a beat on which the draw is 0.1 or more moves it by 1. *)
Theorem stutter_skips_three (index : Z) :
  (0 <= index < 6)%Z ->
  (forall random,
      random < 1 # 10 ->
      Render.onBeat random index = ((index + 3) mod 6)%Z
      /\ Render.onBeat random (Render.onBeat random index) = index)
  /\ (forall random,
         1 # 10 <= random ->
         Render.onBeat random index = ((index + 1) mod 6)%Z).
Proof.
  intro H.
  assert (C : index = 0%Z \/ index = 1%Z \/ index = 2%Z \/ index = 3%Z
              \/ index = 4%Z \/ index = 5%Z) by lia.
  split; intros random Hr; unfold Render.onBeat.
  - apply Qgt_bool_iff in Hr. rewrite Hr.
    destruct C as [C|[C|[C|[C|[C|C]]]]]; subst index; split; reflexivity.
  - apply Qgt_bool_false_iff in Hr. rewrite Hr.
    destruct C as [C|[C|[C|[C|[C|C]]]]]; subst index; reflexivity.
Qed.

(** From var1 (index 1) a stutter beat lands on var2 at index 4. *)
Lemma stutter_skips_three_witness :
  (0 <= 1 < 6)%Z /\ 1 # 20 < 1 # 10
  /\ Render.onBeat (1 # 20) 1 = 4%Z.
Proof.
  assert (H : (0 <= 1 < 6)%Z) by lia.
  assert (Hr : 1 # 20 < 1 # 10) by reflexivity.
  split; [exact H|]. split; [exact Hr|].
  exact (proj1 (proj1 (stutter_skips_three 1 H) (1 # 20) Hr)).
Defined.

Section FlashRunFacts.
Import Render.

Lemma beatTimes_nil_cons (e : env) (i : input) (ins : list input) (r : refs) :
  ready e = true -> Trace.beatTimes e (i :: ins) r = [] ->
  isBeat (audioAnalysis e i r) = false
  /\ Trace.beatTimes e ins (fst (renderFrame e i r)) = [].
Proof.
  intros Hr H. cbn [Trace.beatTimes] in H. cbv zeta in H.
  destruct (renderFrame_drawn e i r Hr) as (f & Hf & Hb & _).
  rewrite Hf, Hb in H.
  destruct (isBeat (audioAnalysis e i r)); [discriminate H|].
  split; [reflexivity|exact H].
Qed.

Lemma decayed_rest (n : nat) :
  (29 <= n)%nat -> Trace.decayed n = Trace.decayed 29.
Proof.
  induction 1 as [|m Hm IH]; [reflexivity|].
  change (Trace.decayed (S m)) with (Trace.decay (Trace.decayed m)).
  rewrite IH. vm_compute. reflexivity.
Qed.

End FlashRunFacts.

(** X6. The flash of a beat lasts 29 frames.  On a run of drawn frames
    without a beat each frame applies one overlay step to the flash; the
    frame of a beat leaves the flash one step after 1; the overlay is
    drawn on the first 29 steps after a beat (the frame of the beat and
    the 28 after it), with alpha 0.15 times the flash it leaves, and on
    no later step, from where on the flash stays at its 29th value. *)
Theorem flash_lasts_29_frames :
  (forall e ins r,
      Render.ready e = true -> Trace.beatTimes e ins r = [] ->
      Render.beatFlashRef (fst (Render.run e ins r))
      = Nat.iter (length ins) Trace.decay (Render.beatFlashRef r))
  /\ (forall e i r,
         Render.ready e = true ->
         Render.isBeat (Render.audioAnalysis e i r) = true ->
         Render.beatFlashRef (fst (Render.renderFrame e i r))
         = Trace.decayed 1)
  /\ (forall n,
         (n < 29)%nat ->
         snd (Render.flashOverlay (Trace.decayed n))
         = Some (Trace.decayed (S n) * (15 # 100)))
  /\ (forall n,
         (29 <= n)%nat ->
         snd (Render.flashOverlay (Trace.decayed n)) = None
         /\ Trace.decayed n = Trace.decayed 29).
Proof.
  split; [|split; [|split]].
  - intros e ins. induction ins as [|i ins IH]; intros r Hr H; [reflexivity|].
    destruct (beatTimes_nil_cons e i ins r Hr H) as [Hb Hrest].
    rewrite run_cons, (IH _ Hr Hrest).
    destruct (renderFrame_drawn e i r Hr) as (f & _ & _ & _ & _ & Hfl & _).
    rewrite Hfl, Hb. cbn [length]. rewrite Nat.iter_succ_r. reflexivity.
  - intros e i r Hr Hb.
    destruct (renderFrame_drawn e i r Hr) as (f & _ & _ & _ & _ & Hfl & _).
    rewrite Hfl, Hb. reflexivity.
  - intros n Hn.
    do 29 (destruct n as [|n]; [vm_compute; reflexivity|]). lia.
  - intros n Hn. rewrite (decayed_rest n Hn). split; [|reflexivity].
    vm_compute. reflexivity.
Qed.

(** The 28 silent frames after the kick of [Samples.fading]: no beat. *)
Lemma flash_lasts_29_frames_witness :
  Render.ready (Samples.playing 50) = true
  /\ Trace.beatTimes (Samples.playing 50)
       (map (fun k => Samples.silence (1000 + 16 * inject_Z (Z.of_nat k)))
            (seq 1 28))
       (fst (Render.run (Samples.playing 50) (Samples.fading 0) Render.init))
     = []
  /\ (28 < 29)%nat
  /\ snd (Render.flashOverlay (Trace.decayed 28))
     = Some (Trace.decayed 29 * (15 # 100)).
Proof.
  split; [reflexivity|]. split; [vm_compute; reflexivity|].
  assert (H : (28 < 29)%nat) by lia.
  split; [exact H|].
  exact (proj1 (proj2 (proj2 flash_lasts_29_frames)) 28%nat H).
Defined.

(** ** The image of a frame *)

Section CompositorFacts.
Import Compositor.



End CompositorFacts.



(** X8. The rotation of the pose image is small and its bass term
    alternates with the sequence index: for a sine between -1 and 1 and
    a bass level between 0 and 1 the angle is within 0.03 radians of 0;
    at the indices 0, 2 and 4 the bass adds 0.02 times the bass level to
    the wobble, at the indices 1, 3 and 5 it subtracts it. *)
Theorem rotation_bounded_alternating (s : Compositor.scene) :
  - (1) <= Compositor.sine s -> Compositor.sine s <= 1 ->
  0 <= Compositor.bassLevel s -> Compositor.bassLevel s <= 1 ->
  (0 <= Compositor.sequenceIndex s < 6)%Z ->
  - (3 # 100) <= Compositor.rotation s
  /\ Compositor.rotation s <= 3 # 100
  /\ (Z.even (Compositor.sequenceIndex s) = true ->
      Compositor.rotation s
      == Compositor.sine s * (1 # 100) + Compositor.bassLevel s * (2 # 100))
  /\ (Z.even (Compositor.sequenceIndex s) = false ->
      Compositor.rotation s
      == Compositor.sine s * (1 # 100) - Compositor.bassLevel s * (2 # 100)).
Proof.
  intros S0 S1 L U H. unfold Compositor.rotation.
  set (x := Compositor.sine s) in *. set (b := Compositor.bassLevel s) in *.
  assert (C : Compositor.sequenceIndex s = 0%Z
              \/ Compositor.sequenceIndex s = 1%Z
              \/ Compositor.sequenceIndex s = 2%Z
              \/ Compositor.sequenceIndex s = 3%Z
              \/ Compositor.sequenceIndex s = 4%Z
              \/ Compositor.sequenceIndex s = 5%Z) by lia.
  destruct C as [C|[C|[C|[C|[C|C]]]]]; rewrite C; simpl;
    (split; [lra|]); (split; [lra|]);
    split; intro E; try discriminate E; ring.
Qed.

(** Index 3, full bass, the sine at its top. *)
Lemma rotation_bounded_alternating_witness :
  - (1) <= 1 /\ 1 <= 1 /\ 0 <= 1 /\ (0 <= 3 < 6)%Z
  /\ Compositor.rotation (Compositor.mkScene 800 450 400 300 1 1 3 0 0)
     <= 3 # 100.
Proof.
  assert (H1 : - (1) <= 1) by (vm_compute; discriminate).
  assert (H2 : 1 <= 1) by (vm_compute; discriminate).
  assert (H3 : 0 <= 1) by (vm_compute; discriminate).
  assert (H4 : (0 <= 3 < 6)%Z) by lia.
  repeat (split; [assumption|]).
  exact (proj1 (proj2
           (rotation_bounded_alternating
              (Compositor.mkScene 800 450 400 300 1 1 3 0 0)
              H1 H2 H3 H2 H4))).
Defined.

(** X9. The shake does not reach the canvas.  The offsets are 0 unless
    the bass level is above 0.6 and lie within 5 px of 0 for draws of
    [Math.random()] (from 0 up to 1), but the image is drawn at
    (-drawW/2, -drawH/2) around the translated centre: the calls made on
    the context are the same whatever the two draws are. *)
Theorem shake_is_not_drawn (s : Compositor.scene) (x y : Q) :
  0 <= Compositor.randomX s -> Compositor.randomX s < 1 ->
  0 <= Compositor.randomY s -> Compositor.randomY s < 1 ->
  (- (5) <= Compositor.shakeX s /\ Compositor.shakeX s < 5
   /\ - (5) <= Compositor.shakeY s /\ Compositor.shakeY s < 5)
  /\ (Compositor.bassLevel s <= 6 # 10 ->
      Compositor.shakeX s = 0 /\ Compositor.shakeY s = 0)
  /\ (6 # 10 < Compositor.bassLevel s ->
      Compositor.drawX s
      == (Compositor.width s - Compositor.drawW s) / 2
         + (Compositor.randomX s - (1 # 2)) * 10)
  /\ Compositor.drawPose
       (Compositor.mkScene (Compositor.width s) (Compositor.height s)
          (Compositor.img_width s) (Compositor.img_height s)
          (Compositor.bassLevel s) (Compositor.sine s)
          (Compositor.sequenceIndex s) x y)
     = Compositor.drawPose s.
Proof.
  intros X0 X1 Y0 Y1. unfold Compositor.shakeX, Compositor.shakeY,
    Compositor.drawX.
  split; [|split; [|split]].
  - destruct (Qgt_bool (Compositor.bassLevel s) (6 # 10));
      repeat split; lra.
  - intro H. apply Qgt_bool_false_iff in H. rewrite H. split; reflexivity.
  - intro H. apply Qgt_bool_iff in H. unfold Compositor.shakeX.
    rewrite H. reflexivity.
  - reflexivity.
Qed.

(** Full bass and the two draws at 0.9 and 0.1. *)
Lemma shake_is_not_drawn_witness :
  0 <= 9 # 10 /\ 9 # 10 < 1 /\ 0 <= 1 # 10 /\ 1 # 10 < 1
  /\ Compositor.shakeX
       (Compositor.mkScene 800 450 400 300 1 0 0 (9 # 10) (1 # 10))
     < 5.
Proof.
  assert (H1 : 0 <= 9 # 10) by (vm_compute; discriminate).
  assert (H2 : 9 # 10 < 1) by reflexivity.
  assert (H3 : 0 <= 1 # 10) by (vm_compute; discriminate).
  assert (H4 : 1 # 10 < 1) by reflexivity.
  repeat (split; [assumption|]).
  exact (proj1 (proj2 (proj1
           (shake_is_not_drawn
              (Compositor.mkScene 800 450 400 300 1 0 0 (9 # 10) (1 # 10))
              0 0 H1 H2 H3 H4)))).
Defined.

(** ** Loading the pose images *)

Section AssetsFacts.
Import Assets.

Lemma collect_app (m : poses) (xs ys : list (GeneratedFrame * bool)) :
  collect m (xs ++ ys) = collect (collect m xs) ys.
Proof. unfold collect. apply fold_left_app. Qed.

Lemma pose_eqb_eq (p q : Render.PoseType) : pose_eqb p q = true <-> p = q.
Proof. destruct p, q; simpl; split; intro H; congruence. Qed.

Lemma assign_same (m : poses) (p : Render.PoseType) (img : image) :
  assign m p img p = Some img.
Proof.
  unfold assign. destruct (pose_eqb p p) eqn:E; [reflexivity|].
  assert (H : pose_eqb p p = true) by (apply pose_eqb_eq; reflexivity).
  congruence.
Qed.

Lemma assign_other (m : poses) (p q : Render.PoseType) (img : image) :
  q <> p -> assign m p img q = m q.
Proof.
  intro H. unfold assign. destruct (pose_eqb q p) eqn:E; [|reflexivity].
  apply pose_eqb_eq in E. contradiction.
Qed.

(** Where the image under a pose comes from. *)
Lemma collect_origin (outcomes : list (GeneratedFrame * bool)) (m : poses)
      (p : Render.PoseType) (img : image) :
  collect m outcomes p = Some img ->
  (m p = Some img /\ ~ loads p outcomes)
  \/ exists frame, In (frame, true) outcomes /\ pose frame = p
                   /\ url frame = img.
Proof.
  induction outcomes as [|[fr ok] outcomes IH] using rev_ind; intro H.
  - left. split; [exact H|]. intros (frame & [] & _).
  - rewrite collect_app in H. simpl in H.
    assert (Hin : forall frame, In (frame, true) outcomes ->
                                In (frame, true) (outcomes ++ [(fr, ok)]))
      by (intros; apply in_or_app; left; assumption).
    destruct ok; simpl in H.
    + destruct (pose_eqb p (pose fr)) eqn:E.
      * apply pose_eqb_eq in E. subst p. rewrite assign_same in H.
        injection H as <-. right. exists fr.
        split; [apply in_or_app; right; left; reflexivity|auto].
      * assert (Hne : p <> pose fr)
          by (intro C; apply pose_eqb_eq in C; congruence).
        rewrite (assign_other _ _ _ _ Hne) in H.
        destruct (IH H) as [[Hm Hn]|(frame & Hf & Hp & Hu)].
        -- left. split; [exact Hm|]. intros (frame & Hf & Hp).
           apply in_app_or in Hf. destruct Hf as [Hf|[Hf|[]]].
           ++ apply Hn. exists frame. auto.
           ++ injection Hf as <-. congruence.
        -- right. exists frame. auto.
    + destruct (IH H) as [[Hm Hn]|(frame & Hf & Hp & Hu)].
      * left. split; [exact Hm|]. intros (frame & Hf & Hp).
        apply in_app_or in Hf. destruct Hf as [Hf|[Hf|[]]].
        -- apply Hn. exists frame. auto.
        -- discriminate Hf.
      * right. exists frame. auto.
Qed.

(** A pose of which a frame loads is set. *)
Lemma collect_loads (outcomes : list (GeneratedFrame * bool)) (m : poses)
      (p : Render.PoseType) :
  loads p outcomes -> exists img, collect m outcomes p = Some img.
Proof.
  induction outcomes as [|[fr ok] outcomes IH] using rev_ind;
    intros (frame & Hf & Hp).
  - destruct Hf.
  - rewrite collect_app. simpl.
    apply in_app_or in Hf. destruct Hf as [Hf|[Hf|[]]].
    + destruct (IH (ex_intro _ frame (conj Hf Hp))) as (img & Hi).
      destruct ok; simpl; [|eauto].
      destruct (pose_eqb p (pose fr)) eqn:E.
      * apply pose_eqb_eq in E. rewrite E, assign_same. eauto.
      * assert (Hne : p <> pose fr)
          by (intro C; apply pose_eqb_eq in C; congruence).
        rewrite (assign_other _ _ _ _ Hne). eauto.
    + injection Hf as E1 E2. subst fr ok. simpl.
      rewrite <- Hp, assign_same. eauto.
Qed.

Lemma fill_spec (m : poses) (baseImg : image) (p : Render.PoseType) :
  fill m baseImg p
  = match p with
    | Render.base => m Render.base
    | _ => match m p with Some img => Some img | None => Some baseImg end
    end.
Proof.
  unfold fill, assign. cbn [fold_left pose_eqb].
  destruct (m Render.var1) eqn:E1; cbn [pose_eqb]; rewrite ?E1;
    destruct (m Render.var2) eqn:E2; cbn [pose_eqb]; rewrite ?E1, ?E2;
    destruct (m Render.var3) eqn:E3; cbn [pose_eqb]; rewrite ?E1, ?E2, ?E3;
    destruct p; cbn [pose_eqb]; rewrite ?E1, ?E2, ?E3; reflexivity.
Qed.

(** As long as an image is outstanding nothing is written. *)
Lemma settleAll_pending (outcomes : list (GeneratedFrame * bool))
      (frames : list GeneratedFrame) (m : poses) (n : nat) (b : bool)
      (v : view) :
  (n + length outcomes < length frames)%nat ->
  settleAll outcomes (mkLoading frames m n b, v)
  = (mkLoading frames (collect m outcomes) (n + length outcomes) b, v).
Proof.
  revert m n. induction outcomes as [|[fr ok] outcomes IH]; intros m n H.
  - simpl. rewrite Nat.add_0_r. reflexivity.
  - cbn [length] in H. unfold settleAll in *. cbn [fold_left].
    assert (E : settle (mkLoading frames m n b, v) (fr, ok)
                = (mkLoading frames
                     (if ok then assign m (pose fr) (url fr) else m)
                     (S n) b, v)).
    { unfold settle, onload, onerror, checkDone. cbn [fst snd].
      destruct ok; cbn [loadedCount framesToLoad];
        destruct (Nat.eqb_spec (S n) (length frames)) as [C|C];
        try reflexivity; lia. }
    rewrite E, IH by lia. cbn [length]. f_equal. f_equal. lia.
Qed.

(** When the last image settles, [checkDone] decides. *)
Lemma settleAll_complete (outcomes : list (GeneratedFrame * bool))
      (frames : list GeneratedFrame) (v : view) :
  outcomes <> [] -> length outcomes = length frames ->
  snd (settleAll outcomes (mkLoading frames noPoses 0 true, v))
  = match collect noPoses outcomes Render.base with
    | Some baseImg =>
        mkView (fill (collect noPoses outcomes) baseImg) true (error v)
    | None => mkView (poseImages v) (imagesReady v) (Some BaseFailed)
    end.
Proof.
  intros Hne Hlen.
  destruct (exists_last Hne) as (pre & [fr ok] & ->).
  rewrite length_app in Hlen. cbn [length] in Hlen.
  unfold settleAll. rewrite fold_left_app. fold (settleAll pre).
  rewrite settleAll_pending by lia. cbn [fold_left].
  rewrite collect_app.
  unfold settle, onload, onerror, checkDone. cbn [fst snd].
  destruct ok; cbn [loadedCount framesToLoad isMounted newPoseMap];
    (destruct (Nat.eqb_spec (S (0 + length pre)) (length frames)) as [C|C];
     [|lia]); cbn [collect fold_left snd fst];
    match goal with
    | |- context [match ?x with Some _ => _ | None => _ end] =>
        destruct x; reflexivity
    end.
Qed.

Lemma start_loading (generatedFrames : list GeneratedFrame)
      (imagePreviewUrl : option String.string) (v v0 : view) (l0 : loading) :
  start generatedFrames imagePreviewUrl v = (v0, Some l0) ->
  l0 = mkLoading (framesToLoad l0) noPoses 0 true
  /\ framesToLoad l0 <> []
  /\ v0 = mkView (poseImages v) false (error v).
Proof.
  unfold start.
  destruct (length (framesOf generatedFrames imagePreviewUrl) =? 0)%nat eqn:E;
    intro H; [discriminate H|].
  injection H as <- <-. simpl. repeat split.
  intro C. rewrite C in E. discriminate E.
Qed.

Lemma settled_all (outcomes : list (GeneratedFrame * bool))
      (frames : list GeneratedFrame) :
  Permutation (map fst outcomes) frames -> frames <> [] ->
  outcomes <> [] /\ length outcomes = length frames.
Proof.
  intros P Hne. apply Permutation_length in P. rewrite length_map in P.
  split; [|exact P]. intro C. subst outcomes.
  destruct frames; [congruence|discriminate P].
Qed.

(** After the cleanup nothing is written, whatever settles. *)
Lemma settleAll_unmounted (outcomes : list (GeneratedFrame * bool))
      (l : loading) (v : view) :
  isMounted l = false ->
  snd (settleAll outcomes (l, v)) = v.
Proof.
  revert l. induction outcomes as [|[fr ok] outcomes IH]; intros l H;
    [reflexivity|].
  unfold settleAll in *. cbn [fold_left].
  assert (E : exists l', settle (l, v) (fr, ok) = (l', v)
                         /\ isMounted l' = false).
  { unfold settle, onload, onerror, checkDone. cbn [fst snd].
    destruct ok; cbn [loadedCount framesToLoad isMounted newPoseMap];
      rewrite H;
      match goal with
      | |- context [(?a =? ?b)%nat] => destruct (a =? b)%nat
      end; eexists; split; try reflexivity; exact H. }
  destruct E as (l' & -> & H'). apply IH, H'.
Qed.

End AssetsFacts.

(** What the view holds once every image has settled and base loaded. *)
Lemma settled_poses
        (generatedFrames : list Assets.GeneratedFrame)
        (imagePreviewUrl : option String.string) (v v0 : Assets.view)
        (l0 : Assets.loading)
        (outcomes : list (Assets.GeneratedFrame * bool)) :
  Assets.start generatedFrames imagePreviewUrl v = (v0, Some l0) ->
  Permutation (map fst outcomes) (Assets.framesToLoad l0) ->
  Assets.loads Render.base outcomes ->
  let v1 := snd (Assets.settleAll outcomes (l0, v0)) in
  Assets.imagesReady v1 = true
  /\ forall p,
      exists img,
        Assets.poseImages v1 p = Some img
        /\ Assets.resolve (Assets.poseImages v1) (Some p) = Some img
        /\ (Assets.loads p outcomes ->
            exists frame, In (frame, true) outcomes
                          /\ Assets.pose frame = p /\ Assets.url frame = img)
        /\ (~ Assets.loads p outcomes ->
            Assets.poseImages v1 Render.base = Some img).
Proof.
  intros Hs P Hb v1.
  destruct (start_loading _ _ _ _ _ Hs) as (El & Hne & Ev).
  destruct (settled_all _ _ P Hne) as [Ho Hlen].
  unfold v1. rewrite El, (settleAll_complete outcomes _ v0 Ho Hlen).
  destruct (collect_loads outcomes Assets.noPoses Render.base Hb)
    as (baseImg & HB).
  rewrite HB. split; [reflexivity|]. intro p. cbn [Assets.poseImages].
  assert (Hp : forall q img,
             Assets.collect Assets.noPoses outcomes q = Some img ->
             exists frame, In (frame, true) outcomes
                           /\ Assets.pose frame = q
                           /\ Assets.url frame = img).
  { intros q img H. destruct (collect_origin _ _ _ _ H) as [[C _]|H'];
      [discriminate C|exact H']. }
  assert (Hn : forall q, ~ Assets.loads q outcomes ->
                         Assets.collect Assets.noPoses outcomes q = None).
  { intros q H.
    destruct (Assets.collect Assets.noPoses outcomes q) eqn:E;
      [|reflexivity].
    destruct (Hp _ _ E) as (frame & Hf & Hq & _).
    exfalso. apply H. exists frame. auto. }
  assert (G : forall img,
             Assets.fill (Assets.collect Assets.noPoses outcomes) baseImg p
             = Some img ->
             Assets.resolve
               (Assets.fill (Assets.collect Assets.noPoses outcomes) baseImg)
               (Some p) = Some img)
    by (intros img H; unfold Assets.resolve; rewrite H; reflexivity).
  assert (GB : Assets.fill (Assets.collect Assets.noPoses outcomes) baseImg
                           Render.base = Some baseImg)
    by (rewrite fill_spec; exact HB).
  destruct (Assets.collect Assets.noPoses outcomes p) as [img|] eqn:E.
  - exists img.
    assert (F : Assets.fill (Assets.collect Assets.noPoses outcomes) baseImg p
                = Some img)
      by (rewrite fill_spec; destruct p; rewrite ?E; try reflexivity;
          exact E).
    split; [exact F|]. split; [apply G, F|].
    split; [intros _; apply Hp, E|].
    intro H. rewrite (Hn p H) in E. discriminate E.
  - exists baseImg.
    assert (Hpb : p <> Render.base) by (intro C; subst p; congruence).
    assert (F : Assets.fill (Assets.collect Assets.noPoses outcomes) baseImg p
                = Some baseImg)
      by (rewrite fill_spec; destruct p; rewrite ?E; try reflexivity;
          congruence).
    split; [exact F|]. split; [apply G, F|].
    split; [|intros _; exact GB].
    intro H. destruct (collect_loads outcomes Assets.noPoses p H) as (x & Hx).
    congruence.
Qed.

(** X10. Pose fallback.  When every image of the frames to load has
    settled, each once and in any order, and a frame of pose base has
    loaded, the preview becomes ready and every pose has an image: a
    pose of which a frame loaded shows the image of such a frame, and a
    pose of which no frame loaded shows the image of base; so the lookup
    [poseImages[pose] || poseImages['base']] of the render loop always
    finds an image. *)
Theorem poses_resolve_when_ready
        (generatedFrames : list Assets.GeneratedFrame)
        (imagePreviewUrl : option String.string) (v v0 : Assets.view)
        (l0 : Assets.loading)
        (outcomes : list (Assets.GeneratedFrame * bool)) :
  Assets.start generatedFrames imagePreviewUrl v = (v0, Some l0) ->
  Permutation (map fst outcomes) (Assets.framesToLoad l0) ->
  Assets.loads Render.base outcomes ->
  let v1 := snd (Assets.settleAll outcomes (l0, v0)) in
  Assets.imagesReady v1 = true
  /\ forall p,
      exists img,
        Assets.poseImages v1 p = Some img
        /\ Assets.resolve (Assets.poseImages v1) (Some p) = Some img
        /\ (Assets.loads p outcomes ->
            exists frame, In (frame, true) outcomes
                          /\ Assets.pose frame = p /\ Assets.url frame = img)
        /\ (~ Assets.loads p outcomes ->
            Assets.poseImages v1 Render.base = Some img).
Proof. apply settled_poses. Qed.

(** The picture alone, loading. *)
Lemma poses_resolve_when_ready_witness :
  Assets.start [] (Some Gemini.picture)
               (Assets.mkView Assets.noPoses false None)
  = (Assets.mkView Assets.noPoses false None,
     Some (Assets.mkLoading
             [Assets.mkFrame Gemini.picture Render.base None]
             Assets.noPoses 0 true))
  /\ Permutation
       (map fst [(Assets.mkFrame Gemini.picture Render.base None, true)])
       [Assets.mkFrame Gemini.picture Render.base None]
  /\ Assets.loads Render.base
       [(Assets.mkFrame Gemini.picture Render.base None, true)]
  /\ Assets.imagesReady
       (snd (Assets.settleAll
               [(Assets.mkFrame Gemini.picture Render.base None, true)]
               (Assets.mkLoading
                  [Assets.mkFrame Gemini.picture Render.base None]
                  Assets.noPoses 0 true,
                Assets.mkView Assets.noPoses false None)))
     = true.
Proof.
  assert (H1 : Assets.start [] (Some Gemini.picture)
                 (Assets.mkView Assets.noPoses false None)
               = (Assets.mkView Assets.noPoses false None,
                  Some (Assets.mkLoading
                          [Assets.mkFrame Gemini.picture Render.base None]
                          Assets.noPoses 0 true))) by reflexivity.
  assert (H2 : Permutation
                 (map fst
                    [(Assets.mkFrame Gemini.picture Render.base None, true)])
                 [Assets.mkFrame Gemini.picture Render.base None])
    by apply Permutation_refl.
  assert (H3 : Assets.loads Render.base
                 [(Assets.mkFrame Gemini.picture Render.base None, true)]).
  { eexists. split; [left; reflexivity|reflexivity]. }
  split; [exact H1|]. split; [exact H2|]. split; [exact H3|].
  exact (proj1 (poses_resolve_when_ready _ _ _ _ _ _ H1 H2 H3)).
Defined.

(** X11. The base image is required.  When every image has settled and
    no frame of pose base has loaded, the preview does not become ready,
    whatever else has loaded: the error "Failed to load base image." is
    set and the pose images are left as they were. *)
Theorem base_image_required
        (generatedFrames : list Assets.GeneratedFrame)
        (imagePreviewUrl : option String.string) (v v0 : Assets.view)
        (l0 : Assets.loading)
        (outcomes : list (Assets.GeneratedFrame * bool)) :
  Assets.start generatedFrames imagePreviewUrl v = (v0, Some l0) ->
  Permutation (map fst outcomes) (Assets.framesToLoad l0) ->
  ~ Assets.loads Render.base outcomes ->
  let v1 := snd (Assets.settleAll outcomes (l0, v0)) in
  Assets.imagesReady v1 = false
  /\ Assets.error v1 = Some Assets.BaseFailed
  /\ Assets.poseImages v1 = Assets.poseImages v.
Proof.
  intros Hs P Hb v1.
  destruct (start_loading _ _ _ _ _ Hs) as (El & Hne & Ev).
  destruct (settled_all _ _ P Hne) as [Ho Hlen].
  unfold v1. rewrite El, (settleAll_complete outcomes _ v0 Ho Hlen).
  destruct (Assets.collect Assets.noPoses outcomes Render.base) as [img|] eqn:E.
  - exfalso. destruct (collect_origin _ _ _ _ E) as [[C _]|(frame & Hf & Hp & _)];
      [discriminate C|]. apply Hb. exists frame. auto.
  - rewrite Ev. repeat split.
Qed.

(** The picture alone, failing to load. *)
Lemma base_image_required_witness :
  Assets.start [] (Some Gemini.picture)
               (Assets.mkView Assets.noPoses false None)
  = (Assets.mkView Assets.noPoses false None,
     Some (Assets.mkLoading
             [Assets.mkFrame Gemini.picture Render.base None]
             Assets.noPoses 0 true))
  /\ ~ Assets.loads Render.base
         [(Assets.mkFrame Gemini.picture Render.base None, false)]
  /\ Assets.error
       (snd (Assets.settleAll
               [(Assets.mkFrame Gemini.picture Render.base None, false)]
               (Assets.mkLoading
                  [Assets.mkFrame Gemini.picture Render.base None]
                  Assets.noPoses 0 true,
                Assets.mkView Assets.noPoses false None)))
     = Some Assets.BaseFailed.
Proof.
  assert (H1 : Assets.start [] (Some Gemini.picture)
                 (Assets.mkView Assets.noPoses false None)
               = (Assets.mkView Assets.noPoses false None,
                  Some (Assets.mkLoading
                          [Assets.mkFrame Gemini.picture Render.base None]
                          Assets.noPoses 0 true))) by reflexivity.
  assert (H2 : Permutation
                 (map fst
                    [(Assets.mkFrame Gemini.picture Render.base None, false)])
                 [Assets.mkFrame Gemini.picture Render.base None])
    by apply Permutation_refl.
  assert (H3 : ~ Assets.loads Render.base
                   [(Assets.mkFrame Gemini.picture Render.base None, false)]).
  { intros (frame & [Hf|[]] & _). discriminate Hf. }
  split; [exact H1|]. split; [exact H3|].
  exact (proj1 (proj2 (base_image_required _ _ _ _ _ _ H1 H2 H3))).
Defined.

(** X12. Nothing is shown early or after unmount.  While an image of
    the frames to load is outstanding, the view stays as the start of
    the effect left it, not ready; and once the effect is cleaned up no
    settling image changes the view. *)
Theorem loading_writes_only_when_complete
        (generatedFrames : list Assets.GeneratedFrame)
        (imagePreviewUrl : option String.string) (v v0 : Assets.view)
        (l0 : Assets.loading)
        (outcomes : list (Assets.GeneratedFrame * bool)) :
  Assets.start generatedFrames imagePreviewUrl v = (v0, Some l0) ->
  Assets.imagesReady v0 = false
  /\ ((length outcomes < length (Assets.framesToLoad l0))%nat ->
      snd (Assets.settleAll outcomes (l0, v0)) = v0)
  /\ (forall early late,
         (length early < length (Assets.framesToLoad l0))%nat ->
         snd (Assets.settleAll late
                (Assets.cleanup (fst (Assets.settleAll early (l0, v0))),
                 snd (Assets.settleAll early (l0, v0))))
         = v0).
Proof.
  intro Hs. destruct (start_loading _ _ _ _ _ Hs) as (El & Hne & Ev).
  split; [rewrite Ev; reflexivity|]. split.
  - intro H. rewrite El, settleAll_pending by (simpl; lia). reflexivity.
  - intros early late H.
    rewrite El, settleAll_pending by (simpl; lia). cbn [fst snd].
    apply settleAll_unmounted. reflexivity.
Qed.

(** Four frames to load of which one has settled. *)
Lemma loading_writes_only_when_complete_witness :
  Assets.start
    (Gemini.generateDanceFrames false Gemini.picture None (fun _ => None))
    (Some Gemini.picture) (Assets.mkView Assets.noPoses true None)
  = (Assets.mkView Assets.noPoses false None,
     Some (Assets.mkLoading
             (Gemini.generateDanceFrames false Gemini.picture None
                                         (fun _ => None))
             Assets.noPoses 0 true))
  /\ Assets.imagesReady (Assets.mkView Assets.noPoses false None) = false.
Proof.
  assert (H1 : Assets.start
                 (Gemini.generateDanceFrames false Gemini.picture None
                                             (fun _ => None))
                 (Some Gemini.picture) (Assets.mkView Assets.noPoses true None)
               = (Assets.mkView Assets.noPoses false None,
                  Some (Assets.mkLoading
                          (Gemini.generateDanceFrames false Gemini.picture
                                                      None (fun _ => None))
                          Assets.noPoses 0 true))) by reflexivity.
  split; [exact H1|].
  exact (proj1 (loading_writes_only_when_complete _ _ _ _ _ [] H1)).
Defined.

(** X23. A load never clears an error.  Whatever settles of the frames
    to load, the error of the view after it is the error before the
    effect or "Failed to load base image.": a load that succeeds after
    an earlier failure makes the preview ready and leaves the earlier
    message standing. *)
Theorem load_keeps_error
        (generatedFrames : list Assets.GeneratedFrame)
        (imagePreviewUrl : option String.string) (v v0 : Assets.view)
        (l0 : Assets.loading)
        (outcomes : list (Assets.GeneratedFrame * bool)) :
  Assets.start generatedFrames imagePreviewUrl v = (v0, Some l0) ->
  (length outcomes <= length (Assets.framesToLoad l0))%nat ->
  let v1 := snd (Assets.settleAll outcomes (l0, v0)) in
  (Assets.error v1 = Assets.error v
   \/ Assets.error v1 = Some Assets.BaseFailed)
  /\ (Assets.imagesReady v1 = true -> Assets.error v1 = Assets.error v).
Proof.
  intros Hs Hlen v1.
  destruct (start_loading _ _ _ _ _ Hs) as (El & Hne & Ev).
  unfold v1. rewrite El.
  destruct (Nat.eq_dec (length outcomes) (length (Assets.framesToLoad l0)))
    as [E|E].
  - assert (Ho : outcomes <> []).
    { intro C. subst outcomes. simpl in E.
      destruct (Assets.framesToLoad l0); [congruence|discriminate E]. }
    rewrite (settleAll_complete outcomes _ v0 Ho E).
    destruct (Assets.collect Assets.noPoses outcomes Render.base);
      rewrite Ev; simpl.
    + split; [left; reflexivity|reflexivity].
    + split; [right; reflexivity|discriminate].
  - rewrite settleAll_pending by (simpl; lia). rewrite Ev. simpl.
    split; [left; reflexivity|discriminate].
Qed.

(** The picture loading after an earlier failure. *)
Lemma load_keeps_error_witness :
  Assets.start [] (Some Gemini.picture)
    (Assets.mkView Assets.noPoses false (Some Assets.BaseFailed))
  = (Assets.mkView Assets.noPoses false (Some Assets.BaseFailed),
     Some (Assets.mkLoading
             [Assets.mkFrame Gemini.picture Render.base None]
             Assets.noPoses 0 true))
  /\ Assets.imagesReady
       (snd (Assets.settleAll
               [(Assets.mkFrame Gemini.picture Render.base None, true)]
               (Assets.mkLoading
                  [Assets.mkFrame Gemini.picture Render.base None]
                  Assets.noPoses 0 true,
                Assets.mkView Assets.noPoses false (Some Assets.BaseFailed))))
     = true
  /\ Assets.error
       (snd (Assets.settleAll
               [(Assets.mkFrame Gemini.picture Render.base None, true)]
               (Assets.mkLoading
                  [Assets.mkFrame Gemini.picture Render.base None]
                  Assets.noPoses 0 true,
                Assets.mkView Assets.noPoses false (Some Assets.BaseFailed))))
     = Some Assets.BaseFailed.
Proof.
  assert (H1 : Assets.start [] (Some Gemini.picture)
                 (Assets.mkView Assets.noPoses false (Some Assets.BaseFailed))
               = (Assets.mkView Assets.noPoses false (Some Assets.BaseFailed),
                  Some (Assets.mkLoading
                          [Assets.mkFrame Gemini.picture Render.base None]
                          Assets.noPoses 0 true))) by reflexivity.
  assert (H2 : (length [(Assets.mkFrame Gemini.picture Render.base None, true)]
                <= length [Assets.mkFrame Gemini.picture Render.base None])%nat)
    by (simpl; lia).
  assert (H3 : Assets.imagesReady
                 (snd (Assets.settleAll
                         [(Assets.mkFrame Gemini.picture Render.base None, true)]
                         (Assets.mkLoading
                            [Assets.mkFrame Gemini.picture Render.base None]
                            Assets.noPoses 0 true,
                          Assets.mkView Assets.noPoses false
                                        (Some Assets.BaseFailed))))
               = true) by reflexivity.
  split; [exact H1|]. split; [exact H3|].
  exact (proj2 (load_keeps_error _ _ _ _ _ _ H1 H2) H3).
Defined.

(** ** The frame service *)

Section GeminiFacts.
Import Stdlib.Strings.String.
Import Gemini.

Lemma dropPrefix_app (pre r : String.string) :
  dropPrefix pre (String.append pre r) = Some r.
Proof.
  induction pre as [|c pre IH]; [reflexivity|].
  simpl. rewrite Ascii.eqb_refl. exact IH.
Qed.

Lemma dropPrefix_spec (pre s r : String.string) :
  dropPrefix pre s = Some r -> s = String.append pre r.
Proof.
  revert s. induction pre as [|c pre IH]; intros s H.
  - simpl in H. injection H as <-. reflexivity.
  - destruct s as [|d s]; [discriminate H|]. simpl in H.
    destruct (Ascii.eqb c d) eqn:E; [|discriminate H].
    apply Ascii.eqb_eq in E. subst d. simpl. f_equal. apply IH, H.
Qed.

Lemma firstMatch_spec (types : list String.string) (rest r : String.string) :
  firstMatch types rest = Some r ->
  exists t, In t types
            /\ rest = String.append t (String.append ";base64," r).
Proof.
  induction types as [|t types IH]; intro H; [discriminate H|].
  simpl in H.
  destruct (dropPrefix (String.append t ";base64,") rest) as [r'|] eqn:E.
  - injection H as <-. exists t. split; [left; reflexivity|].
    apply dropPrefix_spec in E. rewrite E.
    clear. induction t as [|c t IH]; [reflexivity|]. simpl. f_equal. exact IH.
  - destruct (IH H) as (t' & Hin & Hr). exists t'. split; [right|]; assumption.
Qed.



Lemma generateDanceFrames_head (apiKey : bool) (original : String.string)
      (response : option (list move)) (generated : nat -> option String.string) :
  exists rest,
    generateDanceFrames apiKey original response generated
    = Assets.mkFrame original Render.base (Some "Original Image"%string)
      :: rest.
Proof.
  unfold generateDanceFrames. destruct apiKey; simpl; eexists; reflexivity.
Qed.






(** X15. Stripping the data-URL header.  For each of the image types
    png, jpeg, jpg and webp, stripping the header
    [data:image/<type>;base64,] from a data URL gives back its payload;
    and in general the result is either the string itself or the string
    without one such header at its start. *)
Theorem strip_prefix_round_trip (s : String.string) :
  (forall t data,
      In t Gemini.imageTypes ->
      Gemini.stripBase64Prefix
        (String.append "data:image/"%string
           (String.append t (String.append ";base64,"%string data)))
      = data)
  /\ (Gemini.stripBase64Prefix s = s
      \/ exists t,
          In t Gemini.imageTypes
          /\ s = String.append "data:image/"%string
                   (String.append t
                      (String.append ";base64,"%string
                         (Gemini.stripBase64Prefix s)))).
Proof.
  split.
  - intros t data [<-|[<-|[<-|[<-|[]]]]]; reflexivity.
  - unfold Gemini.stripBase64Prefix.
    destruct (Gemini.dropPrefix "data:image/" s) as [rest|] eqn:E;
      [|left; reflexivity].
    destruct (Gemini.firstMatch Gemini.imageTypes rest) as [r|] eqn:F;
      [|left; reflexivity].
    right. destruct (firstMatch_spec _ _ _ F) as (t & Hin & Hr).
    exists t. split; [exact Hin|].
    apply dropPrefix_spec in E. rewrite E, Hr. reflexivity.
Qed.

(** The header of a JPEG data URL. *)
Lemma strip_prefix_round_trip_witness :
  In "jpeg"%string Gemini.imageTypes
  /\ Gemini.stripBase64Prefix "data:image/jpeg;base64,AAAA"%string
     = "AAAA"%string.
Proof.
  assert (H : In "jpeg"%string Gemini.imageTypes)
    by (right; left; reflexivity).
  split; [exact H|].
  exact (proj1 (strip_prefix_round_trip EmptyString) "jpeg"%string
               "AAAA"%string H).
Defined.

End GeminiFacts.

(** ** The wizard around the preview *)

Section AppFacts.
Import App.

Ltac app_simpl :=
  unfold consistent;
  cbn [appState step imageFile imagePreviewUrl audioFile audioPreviewUrl
       intensity duration set_step set_frames handleImageUpload
       handleAudioUpload updateConfig].

Ltac app_auto :=
  app_simpl;
  repeat match goal with |- _ /\ _ => split end;
  try lia; try assumption; intros;
  try lia; try assumption; try congruence; try reflexivity;
  try match goal with
      | H : (_ <= _)%Z -> ?x = true |- ?x = true => apply H; lia
      end.

Lemma truthy_nonempty (u : String.string) :
  u <> String.EmptyString -> truthy (Some u) = true.
Proof. destruct u; [congruence|reflexivity]. Qed.

Lemma handleGenerate_spec (a : app) :
  truthy (imagePreviewUrl (appState a)) = true ->
  present (audioFile (appState a)) = true ->
  exists picture,
    imagePreviewUrl (appState a) = Some picture
    /\ handleGenerate a
       = mkApp (set_step PREVIEW
                  (set_frames (generatedFrames (appState a)) true (appState a)))
               (generating a ++ [picture]).
Proof.
  intros H1 H2. unfold handleGenerate. rewrite H1, H2. simpl.
  destruct (imagePreviewUrl (appState a)) as [picture|]; [|discriminate H1].
  exists picture. split; reflexivity.
Qed.

Lemma handleGenerate_consistent (a : app) :
  consistent a -> consistent (handleGenerate a).
Proof.
  intros C.
  destruct (truthy (imagePreviewUrl (appState a))) eqn:G1;
    [destruct (present (audioFile (appState a))) eqn:G2|].
  - destruct (handleGenerate_spec a G1 G2) as (picture & _ & ->).
    destruct C as (C1 & C2 & C3 & C4 & C5 & C6 & C7).
    app_simpl. unfold PREVIEW.
    repeat split; try lia; try assumption; intros _; congruence.
  - unfold handleGenerate. rewrite G1, G2. exact C.
  - unfold handleGenerate. rewrite G1. exact C.
Qed.

Lemma goToStep_consistent (target : Z) (a : app) :
  (1 <= target <= 4)%Z -> consistent a -> consistent (goToStep target a).
Proof.
  intros T C. unfold goToStep.
  destruct (present (imageFile (appState a))) eqn:P1; cbn [negb].
  - rewrite andb_false_r.
    destruct (present (audioFile (appState a))) eqn:P2; cbn [negb].
    + rewrite andb_false_r.
      destruct C as (C1 & C2 & C3 & C4 & C5 & C6 & C7).
      app_auto.
    + rewrite andb_true_r.
      destruct (Z.gtb_spec target UPLOAD_AUDIO) as [G|G]; [exact C|].
      unfold UPLOAD_AUDIO in G.
      destruct C as (C1 & C2 & C3 & C4 & C5 & C6 & C7).
      app_auto.
  - rewrite andb_true_r.
    destruct (Z.gtb_spec target UPLOAD_IMAGE) as [G|G]; [exact C|].
    unfold UPLOAD_IMAGE in G.
    destruct (present (audioFile (appState a))) eqn:P2; cbn [negb].
    + rewrite andb_false_r.
      destruct C as (C1 & C2 & C3 & C4 & C5 & C6 & C7).
      app_auto.
    + rewrite andb_true_r.
      destruct (Z.gtb_spec target UPLOAD_AUDIO) as [G'|G'];
        [unfold UPLOAD_AUDIO in G'; lia|].
      destruct C as (C1 & C2 & C3 & C4 & C5 & C6 & C7).
      app_auto.
Qed.

Lemma handle_consistent (e : event) (a : app) :
  possible e -> consistent a -> consistent (handle e a).
Proof.
  intros P C. destruct e as [file url|file url|c| | |target| |k key resp drawn];
    unfold handle; cbv zeta.
  - (* ImageRead *)
    simpl in P. destruct C as (C1 & C2 & C3 & C4 & C5 & C6 & C7).
    app_simpl.
    rewrite (truthy_nonempty url P). app_auto.
  - (* AudioUpload *)
    destruct (Z.eqb_spec (step (appState a)) UPLOAD_AUDIO) as [E|E];
      [|exact C].
    unfold UPLOAD_AUDIO in E.
    destruct C as (C1 & C2 & C3 & C4 & C5 & C6 & C7).
    destruct file as [f|], url as [u|]; simpl in P; try contradiction.
    + app_simpl.
    rewrite (truthy_nonempty u P). app_auto.
    + unfold handleAudioUpload.
      assert (E' : mkApp (appState a) (generating a) = a)
        by (destruct a; reflexivity).
      rewrite E'. unfold consistent. tauto.
  - (* Configure *)
    destruct (Z.eqb_spec (step (appState a)) CONFIGURE) as [E|E]; [|exact C].
    destruct C as (C1 & C2 & C3 & C4 & C5 & C6 & C7).
    destruct c; simpl in P; app_auto.
  - (* Continue *)
    destruct (negb (step (appState a) =? PREVIEW)%Z
              && canProceed (appState a)) eqn:G; [|exact C].
    apply andb_true_iff in G. destruct G as [G1 G2].
    unfold nextStep.
    destruct (Z.eqb_spec (step (appState a)) CONFIGURE) as [E|E];
      [apply handleGenerate_consistent, C|].
    unfold canProceed in G2.
    destruct C as (C1 & C2 & C3 & C4 & C5 & C6 & C7).
    unfold UPLOAD_IMAGE, UPLOAD_AUDIO, CONFIGURE in *.
    destruct (Z.eqb_spec (step (appState a)) 1) as [E1|E1].
    + app_auto.
    + destruct (Z.eqb_spec (step (appState a)) 2) as [E2|E2].
      * app_auto.
      * destruct (Z.eqb_spec (step (appState a)) 3) as [E3|E3];
          [contradiction|discriminate G2].
  - (* Back *)
    destruct (negb (step (appState a) =? PREVIEW)%Z
              && negb (step (appState a) =? 1)%Z) eqn:G; [|exact C].
    apply goToStep_consistent; [|exact C].
    destruct C as (C1 & _). apply andb_true_iff in G. destruct G as [_ G].
    apply negb_true_iff, Z.eqb_neq in G. lia.
  - (* Header *)
    destruct ((1 <=? target)%Z && (target <=? step (appState a))%Z) eqn:G;
      [|exact C].
    apply andb_true_iff in G. destruct G as [G1 G2].
    apply Z.leb_le in G1, G2.
    apply goToStep_consistent; [|exact C]. destruct C as (C1 & _). lia.
  - (* Regenerate *)
    destruct ((step (appState a) =? PREVIEW)%Z
              && negb (isGenerating (appState a))); [|exact C].
    apply handleGenerate_consistent, C.
  - (* Generated *)
    unfold generated.
    destruct (nth_error (generating a) k) as [picture|]; [|exact C].
    destruct C as (C1 & C2 & C3 & C4 & C5 & C6 & C7).
    app_auto.
Qed.

Lemma reachable_consistent (a : app) : reachable a -> consistent a.
Proof.
  induction 1 as [|e a H IH P].
  - unfold consistent, mounted, DEFAULT_STATE, UPLOAD_IMAGE. simpl.
    repeat split; try lia; intro H; lia.
  - apply handle_consistent; assumption.
Qed.

Lemma handle_anchored (e : event) (a : app) :
  anchored (appState a) -> anchored (appState (handle e a)).
Proof.
  intro A. destruct e as [file url|file url|c| | |target| |k key resp drawn];
    unfold handle; cbv zeta.
  - left. reflexivity.
  - destruct (step (appState a) =? UPLOAD_AUDIO)%Z; [|exact A].
    unfold handleAudioUpload. destruct url; exact A.
  - destruct (step (appState a) =? CONFIGURE)%Z; [|exact A].
    destruct c; exact A.
  - destruct (negb (step (appState a) =? PREVIEW)%Z
              && canProceed (appState a)); [|exact A].
    unfold nextStep, handleGenerate.
    destruct (step (appState a) =? CONFIGURE)%Z; [|exact A].
    destruct (negb (truthy (imagePreviewUrl (appState a)))
              || negb (present (audioFile (appState a)))); [exact A|].
    destruct (imagePreviewUrl (appState a)); exact A.
  - destruct (negb (step (appState a) =? PREVIEW)%Z
              && negb (step (appState a) =? 1)%Z); [|exact A].
    unfold goToStep.
    destruct ((step (appState a) - 1 >? UPLOAD_IMAGE)%Z
              && negb (present (imageFile (appState a)))); [exact A|].
    destruct ((step (appState a) - 1 >? UPLOAD_AUDIO)%Z
              && negb (present (audioFile (appState a)))); exact A.
  - destruct ((1 <=? target)%Z && (target <=? step (appState a))%Z);
      [|exact A].
    unfold goToStep.
    destruct ((target >? UPLOAD_IMAGE)%Z
              && negb (present (imageFile (appState a)))); [exact A|].
    destruct ((target >? UPLOAD_AUDIO)%Z
              && negb (present (audioFile (appState a)))); exact A.
  - destruct ((step (appState a) =? PREVIEW)%Z
              && negb (isGenerating (appState a))); [|exact A].
    unfold handleGenerate.
    destruct (negb (truthy (imagePreviewUrl (appState a)))
              || negb (present (audioFile (appState a)))); [exact A|].
    destruct (imagePreviewUrl (appState a)); exact A.
  - unfold generated.
    destruct (nth_error (generating a) k) as [picture|]; [|exact A].
    right. cbn [appState set_frames generatedFrames].
    destruct (generateDanceFrames_head key picture resp drawn) as (rest & ->).
    exists picture, rest. reflexivity.
Qed.

Lemma reachable_anchored (a : app) : reachable a -> anchored (appState a).
Proof.
  induction 1 as [|e a H IH P]; [left; reflexivity|].
  apply handle_anchored, IH.
Qed.

End AppFacts.

Section AppTheorems.
Import Stdlib.Strings.String.

Lemma atConfigure_reachable : App.reachable App.atConfigure.
Proof.
  unfold App.atConfigure, App.uploads. cbn [fold_left].
  apply App.reach_handle; [|exact I].
  apply App.reach_handle; [|simpl; discriminate].
  apply App.reach_handle; [|exact I].
  apply App.reach_handle; [|simpl; discriminate].
  apply App.reach_mounted.
Defined.

Lemma atPreview_reachable : App.reachable App.atPreview.
Proof.
  unfold App.atPreview. apply App.reach_handle; [|exact I].
  apply atConfigure_reachable.
Defined.

(** X16. The wizard keeps its prerequisites.  In every state the
    application can reach, the step is one of 1..4, a step from 2 on has
    an uploaded image file and a step from 3 on an uploaded audio file,
    a file is there exactly when its preview URL is, the reactivity is
    within 0..100 and the duration within 5..30, and the generated
    frames, when there are any, start with a frame of pose base. *)
Theorem wizard_keeps_prerequisites (a : App.app) :
  App.reachable a ->
  (1 <= App.step (App.appState a) <= 4)%Z
  /\ ((2 <= App.step (App.appState a))%Z ->
      App.present (App.imageFile (App.appState a)) = true)
  /\ ((3 <= App.step (App.appState a))%Z ->
      App.present (App.audioFile (App.appState a)) = true)
  /\ App.present (App.imageFile (App.appState a))
     = App.truthy (App.imagePreviewUrl (App.appState a))
  /\ App.present (App.audioFile (App.appState a))
     = App.truthy (App.audioPreviewUrl (App.appState a))
  /\ (0 <= App.intensity (App.appState a) <= 100)%Z
  /\ (5 <= App.duration (App.appState a) <= 30)%Z
  /\ (App.generatedFrames (App.appState a) = []
      \/ exists picture rest,
          App.generatedFrames (App.appState a)
          = Assets.mkFrame picture Render.base (Some "Original Image"%string)
            :: rest).
Proof.
  intro H. pose proof (reachable_consistent a H) as C.
  pose proof (reachable_anchored a H) as A.
  unfold App.consistent in C. cbv zeta in C.
  destruct C as (C1 & C2 & C3 & C4 & C5 & C6 & C7).
  repeat (split; [assumption|]). exact A.
Qed.

(** The wizard after the uploads, at its third step. *)
Lemma wizard_keeps_prerequisites_witness :
  App.reachable App.atConfigure
  /\ (1 <= App.step (App.appState App.atConfigure) <= 4)%Z.
Proof.
  split; [exact atConfigure_reachable|].
  exact (proj1 (wizard_keeps_prerequisites App.atConfigure
                  atConfigure_reachable)).
Defined.

(** X17. "Generate Loop" always generates.  In every reachable state at
    the configuration step the guard of the generation passes: the click
    switches to the preview step, sets the generating flag and calls the
    frame service with the uploaded picture, leaving the frames as they
    are until the service returns. *)
Theorem generate_loop_always_starts (a : App.app) :
  App.reachable a ->
  App.step (App.appState a) = App.CONFIGURE ->
  exists picture,
    App.imagePreviewUrl (App.appState a) = Some picture
    /\ picture <> EmptyString
    /\ App.step (App.appState (App.handle App.Continue a)) = App.PREVIEW
    /\ App.isGenerating (App.appState (App.handle App.Continue a)) = true
    /\ App.generatedFrames (App.appState (App.handle App.Continue a))
       = App.generatedFrames (App.appState a)
    /\ App.generating (App.handle App.Continue a)
       = (App.generating a ++ [picture])%list.
Proof.
  intros H E. pose proof (reachable_consistent a H) as C.
  unfold App.consistent in C. cbv zeta in C.
  destruct C as (C1 & C2 & C3 & C4 & C5 & C6 & C7).
  rewrite E in C2, C3. unfold App.CONFIGURE in C2, C3.
  assert (P1 : App.present (App.imageFile (App.appState a)) = true)
    by (apply C2; lia).
  assert (P2 : App.present (App.audioFile (App.appState a)) = true)
    by (apply C3; lia).
  rewrite P1 in C4. symmetry in C4.
  destruct (handleGenerate_spec a C4 P2) as (picture & Hp & Hg).
  exists picture. split; [exact Hp|].
  split; [intro N; rewrite Hp, N in C4; discriminate C4|].
  assert (Hh : App.handle App.Continue a = App.handleGenerate a).
  { unfold App.handle. cbv zeta. unfold App.canProceed, App.nextStep.
    rewrite E. reflexivity. }
  rewrite Hh, Hg. repeat split.
Qed.

(** The click at the third step of the sample wizard. *)
Lemma generate_loop_always_starts_witness :
  App.reachable App.atConfigure
  /\ App.step (App.appState App.atConfigure) = App.CONFIGURE
  /\ App.step (App.appState (App.handle App.Continue App.atConfigure))
     = App.PREVIEW.
Proof.
  split; [exact atConfigure_reachable|]. split; [reflexivity|].
  destruct (generate_loop_always_starts App.atConfigure
              atConfigure_reachable eq_refl)
    as (picture & _ & _ & H & _).
  exact H.
Defined.

(** X18. What the preview is given.  In every reachable state at the
    preview step the effect that loads the images finds frames to load,
    a frame of pose base among them, so "No images to render." is never
    set; the audio URL is there, so the audio engine never reports
    "Audio file is missing."; the target duration of a capture is
    positive; and the reactivity is within the range of its slider, so
    the threshold multiplier is between 1 and 1.5. *)
Theorem preview_is_given_its_inputs (a : App.app) :
  App.reachable a ->
  App.step (App.appState a) = App.PREVIEW ->
  (forall v,
      exists v0 l0,
        Assets.start (App.generatedFrames (App.appState a))
                     (App.imagePreviewUrl (App.appState a)) v
        = (v0, Some l0)
        /\ exists frame, In frame (Assets.framesToLoad l0)
                         /\ Assets.pose frame = Render.base)
  /\ Capture.audioPreviewUrl (App.captureProps (App.appState a)) = true
  /\ (forall newCtx c,
         Capture.error
           (fst (Capture.initAudio (App.captureProps (App.appState a))
                                   newCtx c))
         = Some Capture.AudioMissing ->
         Capture.error c = Some Capture.AudioMissing)
  /\ 0 < Capture.state_duration (App.captureProps (App.appState a))
  /\ 1 <= Render.sensitivityOf (inject_Z (App.intensity (App.appState a)))
  /\ Render.sensitivityOf (inject_Z (App.intensity (App.appState a)))
     <= 3 # 2.
Proof.
  intros H E. pose proof (reachable_consistent a H) as C.
  pose proof (reachable_anchored a H) as A.
  unfold App.consistent in C. cbv zeta in C.
  destruct C as (C1 & C2 & C3 & C4 & C5 & C6 & C7).
  rewrite E in C2, C3. unfold App.PREVIEW in C2, C3.
  assert (P1 : App.present (App.imageFile (App.appState a)) = true)
    by (apply C2; lia).
  assert (P2 : App.present (App.audioFile (App.appState a)) = true)
    by (apply C3; lia).
  rewrite P1 in C4. rewrite P2 in C5. symmetry in C4, C5.
  assert (HA : Capture.audioPreviewUrl (App.captureProps (App.appState a))
               = true) by exact C5.
  split; [|split; [exact HA|split; [|split; [|split]]]].
  - intro v. unfold Assets.start, Assets.framesOf.
    destruct A as [A|(picture & rest & A)]; rewrite A.
    + destruct (App.imagePreviewUrl (App.appState a)) as [[|c u]|];
        try discriminate C4.
      do 2 eexists. split; [reflexivity|].
      eexists. split; [left; reflexivity|reflexivity].
    + do 2 eexists. split; [reflexivity|].
      eexists. split; [left; reflexivity|reflexivity].
  - intros newCtx c. unfold Capture.initAudio. rewrite HA.
    destruct (Capture.audioRef c), (Capture.audioCtx c), newCtx;
      simpl; intro X; try exact X; discriminate X.
  - unfold App.captureProps. cbn [Capture.state_duration].
    rewrite <- (Zlt_Qlt 0). lia.
  - apply sensitivityOf_range.
    + rewrite <- (Zle_Qle 0). lia.
    + rewrite <- (Zle_Qle _ 100). lia.
  - apply sensitivityOf_range.
    + rewrite <- (Zle_Qle 0). lia.
    + rewrite <- (Zle_Qle _ 100). lia.
Qed.

(** The sample wizard at its preview step. *)
Lemma preview_is_given_its_inputs_witness :
  App.reachable App.atPreview
  /\ App.step (App.appState App.atPreview) = App.PREVIEW
  /\ Capture.audioPreviewUrl (App.captureProps (App.appState App.atPreview))
     = true.
Proof.
  split; [exact atPreview_reachable|]. split; [reflexivity|].
  exact (proj1 (proj2 (preview_is_given_its_inputs App.atPreview
                         atPreview_reachable eq_refl))).
Defined.

End AppTheorems.

(** ** More on the capture pipeline *)

Section SessionFacts.
Import Capture.
Import Sessions.

Variable p : props.

Lemma Forall_replace (l : list session) (k : nat) (x : session) :
  Forall Sessions.staged l -> Sessions.staged x ->
  Forall Sessions.staged (replace k x l).
Proof.
  intros H Hx. revert k. induction H as [|y l Hy Hl IH]; intros [|k]; simpl;
    constructor; auto.
Qed.

Lemma finished_replace_same (l : list session) (k : nat) (s x : session) :
  nth_error l k = Some s -> finalized x = finalized s ->
  Sessions.finished (replace k x l) = Sessions.finished l.
Proof.
  revert k. induction l as [|y l IH]; intros [|k] H E; simpl in *;
    try discriminate.
  - injection H as ->. unfold Sessions.finished. simpl. rewrite E.
    destruct (finalized s); reflexivity.
  - unfold Sessions.finished in *. simpl. specialize (IH k H E).
    destruct (finalized y); simpl; congruence.
Qed.

Lemma finished_replace_done (l : list session) (k : nat) (s x : session) :
  nth_error l k = Some s -> finalized s = false -> finalized x = true ->
  Sessions.finished (replace k x l) = S (Sessions.finished l).
Proof.
  revert k. induction l as [|y l IH]; intros [|k] H E1 E2; simpl in *;
    try discriminate.
  - injection H as ->. unfold Sessions.finished. simpl. rewrite E1, E2.
    reflexivity.
  - unfold Sessions.finished in *. simpl. specialize (IH k H E1 E2).
    destruct (finalized y); simpl; congruence.
Qed.

Lemma finished_app (l : list session) (x : session) :
  finalized x = false ->
  Sessions.finished (l ++ [x]) = Sessions.finished l.
Proof.
  intro E. unfold Sessions.finished.
  rewrite filter_app, length_app. simpl. rewrite E. simpl. lia.
Qed.

Lemma initAudio_kept (newCtx : option AudioContextState) (c : component) :
  kept c (fst (initAudio p newCtx c)).
Proof.
  unfold initAudio, kept.
  destruct (audioRef c) as [a|]; [destruct (audioCtx c)|];
    try (simpl; tauto);
    destruct (negb (audioPreviewUrl p)); try (simpl; tauto);
    destruct newCtx; simpl; tauto.
Qed.

Lemma prepare_kept (a : HTMLAudioElement) (c : component) :
  kept c (prepare a c).
Proof.
  unfold prepare, kept. simpl.
  destruct (isPlaying c); simpl; [|destruct (audioRef c)]; simpl; tauto.
Qed.

Lemma startRecording_sessions (c : component) :
  sessions (startRecording p c)
  = sessions c ++ [mkSession recording true (state_duration p) 0 false]
  /\ downloads (startRecording p c) = downloads c.
Proof.
  unfold startRecording. simpl. destruct (audioRef c); simpl; tauto.
Qed.

Lemma accounted_kept (c c' : component) :
  kept c c' -> accounted c -> accounted c'.
Proof. intros [E1 E2] [A1 A2]. unfold accounted. rewrite E1, E2. auto. Qed.

Lemma accounted_started (c : component) :
  accounted c -> accounted (startRecording p c).
Proof.
  intros [A1 A2]. destruct (startRecording_sessions c) as [E1 E2].
  unfold accounted. rewrite E1, E2. split.
  - apply Forall_app. split; [exact A1|]. constructor; [exact I|constructor].
  - rewrite finished_app by reflexivity. exact A2.
Qed.

Lemma handleDownload_accounted (newCtx : option AudioContextState)
      (c : component) :
  accounted c -> accounted (handleDownload p newCtx c).
Proof.
  intro A. unfold handleDownload.
  assert (H1 : exists c1 ok,
             (match audioRef c with
              | None => initAudio p newCtx c
              | Some _ => (c, true)
              end) = (c1, ok) /\ accounted c1).
  { destruct (audioRef c).
    - exists c, true. auto.
    - destruct (initAudio p newCtx c) as [c1 ok] eqn:E.
      exists c1, ok. split; [reflexivity|].
      apply (accounted_kept c); [|exact A].
      pose proof (initAudio_kept newCtx c) as K. rewrite E in K. exact K. }
  destruct H1 as (c1 & ok & -> & A1).
  destruct ok; simpl; [|exact A1].
  destruct (audioRef c1) as [a|];
    [|apply (accounted_kept c1); [split; reflexivity|exact A1]].
  destruct (canvasRef c1); simpl;
    [|apply (accounted_kept c1); [split; reflexivity|exact A1]].
  pose proof (accounted_kept _ _ (prepare_kept a c1) A1) as A2.
  destruct (audioCtx (prepare a c1)).
  - apply accounted_started, A2.
  - apply (accounted_kept (prepare a c1)); [split; reflexivity|exact A2].
Qed.

Lemma step_accounted (e : event) (c : component) :
  accounted c -> accounted (step p e c).
Proof.
  intro A. destruct e as [newCtx|newCtx playOk| |t|k|k]; simpl.
  - unfold clickDownload.
    destruct (isRecording c || negb (imagesReady c)); [exact A|].
    apply handleDownload_accounted, A.
  - unfold togglePlay. destruct (isRecording c); [exact A|].
    assert (H1 : exists c1 ok,
               (match audioRef c with
                | None => initAudio p newCtx c
                | Some _ => (c, true)
                end) = (c1, ok) /\ accounted c1).
    { destruct (audioRef c).
      - exists c, true. auto.
      - destruct (initAudio p newCtx c) as [c1 ok] eqn:E.
        exists c1, ok. split; [reflexivity|].
        apply (accounted_kept c); [|exact A].
        pose proof (initAudio_kept newCtx c) as K. rewrite E in K. exact K. }
    destruct H1 as (c1 & ok & -> & A1).
    destruct ok; simpl; [|exact A1].
    destruct (audioRef c1); [|exact A1].
    destruct (isPlaying c1); simpl;
      [apply (accounted_kept c1); [split; reflexivity|exact A1]|].
    destruct playOk;
      apply (accounted_kept c1); try (split; reflexivity); exact A1.
  - unfold resumed. destruct (awaiting c); [|exact A].
    apply accounted_started.
    apply (accounted_kept c); [split; reflexivity|exact A].
  - unfold playback. destruct (audioRef c) as [a|]; [|exact A].
    destruct (paused a); [exact A|].
    apply (accounted_kept c); [split; reflexivity|exact A].
  - unfold poll. destruct (nth_error (sessions c) k) as [s|] eqn:N;
      [|exact A].
    destruct (interval s) eqn:Hi; [|exact A].
    destruct (audioRef c) as [a|]; [|exact A].
    destruct (Qge_bool (currentTime a) (duration s));
      [|apply (accounted_kept c); [split; reflexivity|exact A]].
    destruct A as [A1 A2].
    assert (Hs : Sessions.staged s)
      by (eapply Forall_forall; [exact A1|eapply nth_error_In; exact N]).
    unfold Sessions.staged in Hs. rewrite Hi in Hs.
    destruct (recorder s); [contradiction|].
    destruct (stops s) eqn:St; [|contradiction].
    destruct (finalized s) eqn:F; [contradiction|].
    unfold accounted. simpl. split.
    + apply Forall_replace; [exact A1|exact I].
    + rewrite (finished_replace_same _ k s) by (assumption || (simpl; congruence)).
      exact A2.
  - unfold onstop. destruct (nth_error (sessions c) k) as [s|] eqn:N;
      [|exact A].
    destruct (recorder s) eqn:R; [|exact A].
    destruct (stops s) as [|n] eqn:St; [exact A|].
    destruct (finalized s) eqn:F; [exact A|].
    destruct A as [A1 A2].
    assert (Hs : Sessions.staged s)
      by (eapply Forall_forall; [exact A1|eapply nth_error_In; exact N]).
    unfold Sessions.staged in Hs. rewrite R, St in Hs.
    destruct (interval s) eqn:Hi; [contradiction|].
    destruct n; [|contradiction].
    set (x := mkSession inactive false (duration s) 1 true).
    assert (G : accounted
                  (setIsRecording false
                     (count_download (set_sessions (replace k x (sessions c))
                                                   c)))).
    { unfold accounted. simpl. split.
      - apply Forall_replace; [exact A1|exact I].
      - rewrite (finished_replace_done _ k s x N F eq_refl). congruence. }
    simpl. destruct (audioRef c);
      [apply (accounted_kept _ _ (conj eq_refl eq_refl) G)|exact G].
Qed.

Lemma reachable_accounted (c : component) : reachable p c -> accounted c.
Proof.
  induction 1 as [b|e c H IH].
  - split; [constructor|reflexivity].
  - apply step_accounted, IH.
Qed.

End SessionFacts.

Section LoopFacts.
Import Capture.
Import Sessions.

Variable p : props.

Lemma looping_same (c c' : component) :
  audioRef c' = audioRef c -> isRecording c' = isRecording c ->
  looping c -> looping c'.
Proof. intros E1 E2 L a H. rewrite E1 in H. rewrite E2. apply L, H. Qed.

Lemma looping_audio (c : component) (t : Q) (b : bool) (a : HTMLAudioElement)
      (c' : component) :
  audioRef c = Some a ->
  audioRef c' = Some (mkAudio t (loop a) b) ->
  isRecording c' = isRecording c ->
  looping c -> looping c'.
Proof.
  intros Ha E1 E2 L a' H. rewrite E1 in H. injection H as <-.
  rewrite E2. simpl. apply L, Ha.
Qed.

Lemma initAudio_idle (newCtx : option AudioContextState) (c : component) :
  audioRef c = None -> isRecording c = false ->
  looping (fst (initAudio p newCtx c))
  /\ isRecording (fst (initAudio p newCtx c)) = false.
Proof.
  intros N R. unfold initAudio. rewrite N.
  destruct (negb (audioPreviewUrl p)); [|destruct newCtx]; simpl;
    (split; [|exact R]); intros el H; simpl in H;
    try (rewrite N in H; discriminate H).
  injection H as <-. simpl. rewrite R. reflexivity.
Qed.

Lemma prepare_looping (a : HTMLAudioElement) (c : component) :
  audioRef c = Some a ->
  looping (prepare a c) /\ isRecording (prepare a c) = true
  /\ exists a', audioRef (prepare a c) = Some a' /\ loop a' = false.
Proof.
  intro Ha. unfold prepare. simpl.
  destruct (isPlaying c); simpl; rewrite ?Ha; simpl;
    (split; [intros a' H; simpl in H; injection H as <-; reflexivity|]);
    (split; [reflexivity|]); eexists; split; reflexivity.
Qed.

Lemma startRecording_looping (c : component) :
  looping c -> looping (startRecording p c).
Proof.
  intro L. unfold startRecording. simpl.
  destruct (audioRef c) as [a|] eqn:Ha.
  - apply (looping_audio c (currentTime a) false a); auto.
  - apply (looping_same c); auto.
Qed.

Lemma handleDownload_looping (newCtx : option AudioContextState)
      (c : component) :
  isRecording c = false -> looping c -> looping (handleDownload p newCtx c).
Proof.
  intros R L. unfold handleDownload.
  assert (H1 : exists c1 ok,
             (match audioRef c with
              | None => initAudio p newCtx c
              | Some _ => (c, true)
              end) = (c1, ok) /\ looping c1).
  { destruct (audioRef c) eqn:Ha.
    - exists c, true. auto.
    - destruct (initAudio_idle newCtx c Ha R) as [L1 _].
      destruct (initAudio p newCtx c) as [c1 ok]. exists c1, ok. auto. }
  destruct H1 as (c1 & ok & -> & L1).
  destruct ok; simpl; [|exact L1].
  destruct (audioRef c1) as [a|] eqn:Ha;
    [|apply (looping_same c1); auto].
  destruct (canvasRef c1); simpl; [|apply (looping_same c1); auto].
  destruct (prepare_looping a c1 Ha) as (L2 & _).
  destruct (audioCtx (prepare a c1)).
  - apply startRecording_looping, L2.
  - apply (looping_same (prepare a c1)); auto.
Qed.

Lemma step_looping (e : event) (c : component) :
  looping c -> looping (step p e c).
Proof.
  intro L. destruct e as [newCtx|newCtx playOk| |t|k|k]; simpl.
  - unfold clickDownload. destruct (isRecording c) eqn:R; [exact L|].
    destruct (imagesReady c); simpl; [|exact L].
    apply handleDownload_looping; assumption.
  - unfold togglePlay. destruct (isRecording c) eqn:R; [exact L|].
    assert (H1 : exists c1 ok,
               (match audioRef c with
                | None => initAudio p newCtx c
                | Some _ => (c, true)
                end) = (c1, ok) /\ looping c1 /\ isRecording c1 = false).
    { destruct (audioRef c) eqn:Ha.
      - exists c, true. auto.
      - destruct (initAudio_idle newCtx c Ha R) as [L1 R1].
        destruct (initAudio p newCtx c) as [c1 ok]. exists c1, ok. auto. }
    destruct H1 as (c1 & ok & -> & L1 & R1).
    destruct ok; simpl; [|exact L1].
    destruct (audioRef c1) as [a|] eqn:Ha; [|exact L1].
    destruct (isPlaying c1); simpl.
    + apply (looping_audio c1 (currentTime a) true a); auto.
    + destruct playOk.
      * apply (looping_audio c1 (currentTime a) false a); auto.
      * apply (looping_same c1); auto.
  - unfold resumed. destruct (awaiting c); [|exact L].
    apply startRecording_looping. apply (looping_same c); auto.
  - unfold playback. destruct (audioRef c) as [a|] eqn:Ha; [|exact L].
    destruct (paused a); [exact L|].
    apply (looping_audio c t false a); auto.
  - unfold poll. destruct (nth_error (sessions c) k) as [s|]; [|exact L].
    destruct (interval s); [|exact L].
    destruct (audioRef c) as [a|] eqn:Ha; [|exact L].
    destruct (Qge_bool (currentTime a) (duration s)).
    + apply (looping_audio c (currentTime a) true a); auto.
    + apply (looping_same c); auto.
  - unfold onstop. destruct (nth_error (sessions c) k) as [s|]; [|exact L].
    destruct (recorder s); [|exact L].
    destruct (stops s); [exact L|].
    destruct (finalized s); [exact L|].
    simpl. destruct (audioRef c) as [a|] eqn:Ha; intros a' H; simpl in H.
    + injection H as <-. reflexivity.
    + rewrite Ha in H. discriminate H.
Qed.

Lemma reachable_looping (c : component) : reachable p c -> looping c.
Proof.
  induction 1 as [b|e c H IH].
  - intros a Ha. discriminate Ha.
  - apply step_looping, IH.
Qed.

End LoopFacts.

(** X19. The progress of a capture is bounded and monotone: for a
    positive target duration and playback positions 0 <= x <= y, the
    reported value min(99, x / D * 100) lies between 0 and 99 and does
    not decrease from x to y; it equals x / D * 100 while that is at
    most 99. *)
Theorem progress_bounded_monotone (x y D : Q) :
  0 < D -> 0 <= x -> x <= y ->
  0 <= Capture.progressOf x D
  /\ Capture.progressOf x D <= 99
  /\ Capture.progressOf x D <= Capture.progressOf y D
  /\ (x / D * 100 <= 99 -> Capture.progressOf x D == x / D * 100).
Proof.
  intros HD Hx Hxy. unfold Capture.progressOf.
  assert (Hi : 0 < / D) by (apply Qinv_lt_0_compat, HD).
  unfold Qdiv. set (i := / D) in *.
  assert (Ha : 0 <= x * i * 100).
  { apply Qmult_le_0_compat; [|lra].
    apply Qmult_le_0_compat; [exact Hx|lra]. }
  assert (Hab : x * i * 100 <= y * i * 100).
  { apply Qmult_le_compat_r; [|lra].
    apply Qmult_le_compat_r; [exact Hxy|lra]. }
  set (a := x * i * 100) in *. set (b := y * i * 100) in *.
  destruct (Q.min_spec 99 a) as [[L1 E1]|[L1 E1]];
    destruct (Q.min_spec 99 b) as [[L2 E2]|[L2 E2]];
    rewrite E1, E2; (split; [lra|]); (split; [lra|]); (split; [lra|]);
    intro; lra.
Qed.

(** Target 10 s, positions 2.5 s and 5 s. *)
Lemma progress_bounded_monotone_witness :
  0 < 10 /\ 0 <= 5 # 2 /\ 5 # 2 <= 5
  /\ Capture.progressOf (5 # 2) 10 <= Capture.progressOf 5 10.
Proof.
  assert (H1 : 0 < 10) by reflexivity.
  assert (H2 : 0 <= 5 # 2) by (vm_compute; discriminate).
  assert (H3 : 5 # 2 <= 5) by (vm_compute; discriminate).
  repeat (split; [assumption|]).
  exact (proj1 (proj2 (proj2 (progress_bounded_monotone (5 # 2) 5 10
                                H1 H2 H3)))).
Defined.

(** X20. One stop and one file per session.  In every state the
    component can reach, each session is at one of three stages:
    recording with its timer armed and [recorder.stop()] never called;
    stopped exactly once with the timer cleared; or finalized after that
    one stop.  The downloads triggered are as many as the finalized
    sessions; and on a session that is stopped or finalized the poll
    does nothing, so a recorder is never stopped twice. *)
Theorem one_stop_one_file_per_session (p : Capture.props)
        (c : Capture.component) :
  Capture.reachable p c ->
  Forall Sessions.staged (Capture.sessions c)
  /\ Capture.downloads c = Sessions.finished (Capture.sessions c)
  /\ forall k s,
      nth_error (Capture.sessions c) k = Some s ->
      (Capture.stops s <= 1)%nat
      /\ (Capture.stops s = 1%nat -> Capture.poll k c = c)
      /\ (Capture.finalized s = true -> Capture.onstop k c = c).
Proof.
  intro H. destruct (reachable_accounted p c H) as [A1 A2].
  split; [exact A1|]. split; [exact A2|].
  intros k s N.
  assert (Hs : Sessions.staged s)
    by (eapply Forall_forall; [exact A1|eapply nth_error_In; exact N]).
  unfold Sessions.staged in Hs.
  destruct (Capture.recorder s) eqn:R, (Capture.interval s) eqn:Hi,
           (Capture.stops s) as [|[|n]] eqn:St, (Capture.finalized s) eqn:F;
    try contradiction; (split; [lia|]); split; intro E; try discriminate E;
    unfold Capture.poll, Capture.onstop; rewrite N, ?R, ?Hi, ?St, ?F;
    reflexivity.
Qed.

(** A whole capture of the sample component: the click, the poll at
    10 s, the stop handler. *)
Lemma one_stop_one_file_per_session_witness :
  Capture.reachable Samples.tenSeconds Takes.taken
  /\ Capture.downloads Takes.taken = 1%nat.
Proof.
  assert (H : Capture.reachable Samples.tenSeconds Takes.taken).
  { unfold Takes.taken. do 3 apply Capture.reach_step.
    unfold Samples.capturing. apply Capture.reach_step, Capture.reach_init. }
  split; [exact H|].
  rewrite (proj1 (proj2 (one_stop_one_file_per_session _ _ H))).
  vm_compute. reflexivity.
Defined.

(** X21. Looping is off exactly during a capture.  In every state the
    component can reach, once the audio element exists its [loop] flag
    is the negation of [isRecording]: the preview loops, a capture plays
    the track once, and the end of the capture switches looping on
    again. *)
Theorem loop_off_exactly_while_recording (p : Capture.props)
        (c : Capture.component) (a : Capture.HTMLAudioElement) :
  Capture.reachable p c ->
  Capture.audioRef c = Some a ->
  Capture.loop a = negb (Capture.isRecording c).
Proof. intros H Ha. exact (reachable_looping p c H a Ha). Qed.

(** The sample component while it records. *)
Lemma loop_off_exactly_while_recording_witness :
  Capture.reachable Samples.tenSeconds Samples.capturing
  /\ Capture.audioRef Samples.capturing
     = Some (Capture.mkAudio 0 false false)
  /\ Capture.loop (Capture.mkAudio 0 false false)
     = negb (Capture.isRecording Samples.capturing).
Proof.
  assert (H : Capture.reachable Samples.tenSeconds Samples.capturing)
    by (apply Capture.reach_step, Capture.reach_init).
  split; [exact H|]. split; [reflexivity|].
  exact (loop_off_exactly_while_recording _ _ _ H eq_refl).
Defined.


